(** * Commit Scribe: a shallow embedding of the commit filter, the exporters
      and the pagination loop

    The development follows the TypeScript components one by one:

    - [CommitFilter]            (the repository filter and the token estimate),
    - [EnhancedCommitExporter]  (detail-level formatter and aggregate report),
    - [CommitExporter]          (the first, unfiltered exporter),
    - [DateRangePicker]         (the selection handler of the date picker),
    - [Index]                   (the page that owns the state and the
                                 pagination loop).

    [JS] holds the fragment of JavaScript the components rely on,
    [Observations] the notions in which the properties are stated, and
    [Sample] the data of the worked examples.

    Conventions.  A JavaScript number that the code only uses as an integer is
    a [Z]; array lengths are [nat] and are injected with [Z.of_nat] where the
    code does arithmetic on them.  A [Date] is the integer that [getTime()]
    returns (milliseconds since the epoch).  Strings are [string]; template
    literals are concatenations.  An optional property ([stats?], [files?],
    [repository?]) is an [option].  What comes from outside the repository
    (date-fns [format], [toLocaleString], [toFixed] on a finite quotient, the
    clock) is collected in the class [Env]. *)

From Stdlib Require Import ZArith Lia DecimalString DecimalNat DecimalZ DecimalFacts.
From Stdlib Require Import Sorted Ascii.
From stdpp Require Import base list strings sorting.

Local Open Scope Z_scope.

(** ** The JavaScript fragment used by the components *)

Module JS.

(** [x || d] where [x] is a possibly undefined string: [undefined] and the
    empty string are falsy. *)
Definition or_string (x : option string) (d : string) : string :=
  match x with
  | Some s => if decide (s = "") then d else s
  | None => d
  end.

(** [x || d] where [x] is a possibly undefined number: [undefined] and [0]
    are falsy. *)
Definition or_number (x : option Z) (d : Z) : Z :=
  match x with
  | Some n => if decide (n = 0) then d else n
  | None => d
  end.

(** [xs.includes(x)] on an array of strings. *)
Definition includes (xs : list string) (x : string) : bool :=
  bool_decide (x ∈ xs).

(** The line feed of the template literals. *)
Definition LF : string := String "010"%char "".

(** [`${n}`] for an array length or an index. *)
Definition string_of_nat (n : nat) : string :=
  NilEmpty.string_of_uint (Nat.to_uint n).

(** [`${n}`] for an integer-valued number. *)
Definition string_of_Z (n : Z) : string :=
  NilEmpty.string_of_int (Z.to_int n).

(** [s.split('\n')]: never empty, [''.split('\n')] is [['']]. *)
Fixpoint split_lines (s : string) : list string :=
  match s with
  | "" => [""]
  | String c s' =>
      if decide (c = "010"%char) then "" :: split_lines s'
      else match split_lines s' with
           | l :: ls => String c l :: ls
           | [] => [String c ""]
           end
  end.

(** [xs.join(sep)] *)
Definition join (sep : string) (xs : list string) : string :=
  String.concat sep xs.

Fixpoint trimStart (s : string) : string :=
  match s with
  | String c s' => if Ascii.is_space c then trimStart s' else s
  | "" => ""
  end.

Fixpoint trimEnd (s : string) : string :=
  match s with
  | "" => ""
  | String c s' =>
      let t := trimEnd s' in
      if decide (t = "") then (if Ascii.is_space c then "" else String c "")
      else String c t
  end.

(** [s.trim()] on the white space of ASCII. *)
Definition trim (s : string) : string := trimEnd (trimStart s).

(** [s.substring(0, n)] *)
Definition substring0 (n : nat) (s : string) : string :=
  String.substring 0 n s.

(** [xs.slice(0, n)] *)
Definition slice0 {A} (n : nat) (xs : list A) : list A := take n xs.

(** [xs.slice(1)] *)
Definition slice1 {A} (xs : list A) : list A := drop 1 xs.

(** *** Numbers that are not integers

    The quotient of two integer-valued numbers.  [Ratio p q] stands for the
    finite quotient [p / q] with [q ≠ 0]. *)
Inductive number :=
| Ratio (p q : Z)
| Infinity
| NegInfinity
| NaN.

(** [Math.ceil(a / b)] for integers [a] and [b > 0]: the ceiling of the
    exact quotient, and whether it is the negative zero ([-b < a < 0]). *)
Definition ceil_div (a b : Z) : Z * bool :=
  (- ((- a) / b), (- b <? a) && (a <? 0)).

(** [n / d] for a non-negative integer [n] and the integer [d] that
    [ceil_div] produced (its flag tells that a zero [d] is [-0]). *)
Definition divide (n : Z) (d : Z * bool) : number :=
  if decide (d.1 = 0) then
    if decide (n = 0) then NaN
    else if d.2 then NegInfinity else Infinity
  else Ratio n d.1.

(** *** Plain objects used as dictionaries

    [{} as Record<string, number>]: the own properties in creation order.
    The keys the components use are names of authors and repositories; a key
    that names a member inherited from [Object.prototype] ([constructor],
    [toString], [__proto__], ...) is outside this model. *)
Definition object := list (string * Z).

(** [o[k]] *)
Fixpoint get (o : object) (k : string) : option Z :=
  match o with
  | [] => None
  | (k', v) :: o' => if decide (k = k') then Some v else get o' k
  end.

(** [o[k] = v]: an existing property keeps its place, a new one is created
    last. *)
Fixpoint set (o : object) (k : string) (v : Z) : object :=
  match o with
  | [] => [(k, v)]
  | (k', v') :: o' =>
      if decide (k = k') then (k, v) :: o' else (k', v') :: set o' k v
  end.

(** A property key is an array index when it is the canonical decimal form
    of an integer between 0 and 2^32 - 2. *)
Definition array_index (k : string) : option N :=
  match NilEmpty.uint_of_string k with
  | Some d =>
      let n := N.of_uint d in
      if decide (NilEmpty.string_of_uint (N.to_uint n) = k ∧ (n ≤ 4294967294)%N)
      then Some n else None
  | None => None
  end.

Definition is_array_index (k : string) : bool :=
  match array_index k with Some _ => true | None => false end.

Fixpoint insert_index (e : N * (string * Z)) (l : list (N * (string * Z)))
    : list (N * (string * Z)) :=
  match l with
  | [] => [e]
  | e' :: l' => if (e.1 <=? e'.1)%N then e :: l else e' :: insert_index e l'
  end.

(** The own properties whose key is an array index, in ascending index
    order. *)
Definition index_entries (o : object) : list (string * Z) :=
  snd <$> foldr insert_index []
    (omap (λ kv, (λ n, (n, kv)) <$> array_index kv.1) o).

(** [Object.entries(o)]: array-index keys first, in ascending numeric order,
    then the other keys in creation order. *)
Definition entries (o : object) : list (string * Z) :=
  index_entries o ++ List.filter (λ kv, negb (is_array_index kv.1)) o.

(** The names of the members that every plain object inherits from
    [Object.prototype]. *)
Definition inherited_names : list string :=
  [ "constructor"; "__proto__"; "hasOwnProperty"; "isPrototypeOf";
    "propertyIsEnumerable"; "toLocaleString"; "toString"; "valueOf";
    "__defineGetter__"; "__defineSetter__"; "__lookupGetter__";
    "__lookupSetter__" ].

(** A key for which a plain object behaves as a dictionary that keeps the
    order of insertion: not an array index, and not an inherited name. *)
Definition plain_key (k : string) : bool :=
  negb (is_array_index k) && negb (bool_decide (k ∈ inherited_names)).

(** *** [Array.prototype.sort] with a comparator

    The sort is stable: [insert_sorted x l] puts [x], which came before the
    elements of [l], in front of the first element it is not to follow. *)
Fixpoint insert_sorted {A} (cmp : A → A → Z) (x : A) (l : list A) : list A :=
  match l with
  | [] => [x]
  | y :: l' => if cmp x y <=? 0 then x :: l else y :: insert_sorted cmp x l'
  end.

Definition sort {A} (cmp : A → A → Z) (l : list A) : list A :=
  foldr (insert_sorted cmp) [] l.

(** *** [Set]

    [[...new Set(xs)]]: a set keeps its elements in insertion order and
    ignores the insertion of an element it has. *)
Definition unique (xs : list string) : list string :=
  foldl (λ seen x, if decide (x ∈ seen) then seen else seen ++ [x]) [] xs.

End JS.

(** ** What the components import from outside the repository *)

Class Env := {
  (** [format(date, pattern)] of date-fns, in the time zone of the browser *)
  format : Z → string → string;
  (** [n.toLocaleString()] *)
  toLocaleString : Z → string;
  (** [(p / q).toFixed(2)] for a finite quotient *)
  toFixed2 : Z → Z → string;
  (** [new Date()] *)
  now : Z
}.

(** [x.toFixed(2)] *)
Definition toFixed `{Env} (x : JS.number) : string :=
  match x with
  | JS.Ratio p q => toFixed2 p q
  | JS.Infinity => "Infinity"
  | JS.NegInfinity => "-Infinity"
  | JS.NaN => "NaN"
  end.

(** ** Data model: the commit objects of the hosting API *)

Module Author.
(** [commit.commit.author]; [date] is the instant that
    [new Date(commit.commit.author.date)] denotes. *)
Record t := mk { name : string; email : string; date : Z }.
End Author.

Module GitCommit.
Record t := mk { author : Author.t; message : string }.
End GitCommit.

Module Stats.
Record t := mk { additions : option Z; deletions : option Z }.
End Stats.

Module Repository.
(** The tag [{ name: selectedRepo }] that the page adds to every commit. *)
Record t := mk { name : string }.
End Repository.

Module RepositoryInfo.
(** An entry of the repository listing, as the filter declares it. *)
Record t := mk {
  name : string;
  full_name : string;
  description : string;
  language : string
}.
End RepositoryInfo.

Record Commit := mkCommit {
  sha : string;
  commit : GitCommit.t;
  html_url : string;
  stats : option Stats.t;
  files : option (list string);
  repository : option Repository.t
}.

(** [{ from: Date; to: Date }] *)
Record DateRange := mkDateRange { from : Z; to : Z }.

(** ** CommitFilter.tsx *)

Module CommitFilter.

(** [commit.repository?.name || 'unknown'] *)
Definition repoName (commit : Commit) : string :=
  JS.or_string (Repository.name <$> repository commit) "unknown".

(** The callback of [commits.filter] in [applyFilters]. *)
Definition keeps (repos : list string) (commit : Commit) : bool :=
  if decide (length repos = 0%nat) then true
  else JS.includes repos (repoName commit).

Definition tokenMap (level : Z) : option Z :=
  match level with
  | 1 => Some 25
  | 2 => Some 50
  | 3 => Some 100
  | 4 => Some 150
  | 5 => Some 200
  | _ => None
  end.

Definition getTokensPerCommit (level : Z) : Z :=
  JS.or_number (tokenMap level) 100.

(** [applyFilters(repos, detail)] over the [commits] prop.  The result is
    the pair handed to [onFilterChange]; its second component is also what
    [setTokenCount] stores. *)
Definition applyFilters (commits : list Commit) (repos : list string)
    (detail : Z) : list Commit * Z :=
  let filteredCommits := List.filter (keeps repos) commits in
  let tokensPerCommit := getTokensPerCommit detail in
  let estimatedTokens := Z.of_nat (length filteredCommits) * tokensPerCommit in
  (filteredCommits, estimatedTokens).

(** *** The state of the component and its handlers *)

(** [selectedRepos], [detailLevel[0]] (the slider has one thumb) and
    [tokenCount]. *)
Record State := mkState {
  selectedRepos : list string;
  detailLevel : Z;
  tokenCount : Z
}.

(** [useState([])], [useState([3])], [useState(0)] *)
Definition initial : State := mkState [] 3 0.

(** [handleRepoToggle(repoName)]: the state it leaves and the arguments of
    its call of [onFilterChange]. *)
Definition handleRepoToggle (commits : list Commit) (st : State)
    (repoName : string) : State * (list Commit * Z) :=
  let updated :=
    if JS.includes (selectedRepos st) repoName
    then List.filter (λ r, negb (bool_decide (r = repoName))) (selectedRepos st)
    else selectedRepos st ++ [repoName] in
  let notified := applyFilters commits updated (detailLevel st) in
  (mkState updated (detailLevel st) notified.2, notified).

(** [handleDetailLevelChange(value)] for the one-element array [[value]]. *)
Definition handleDetailLevelChange (commits : list Commit) (st : State)
    (value : Z) : State * (list Commit * Z) :=
  let notified := applyFilters commits (selectedRepos st) value in
  (mkState (selectedRepos st) value notified.2, notified).

(** The button [Select All]: [setSelectedRepos(repositories.map(r => r.name))],
    and nothing else. *)
Definition selectAll (repositories : list RepositoryInfo.t) (st : State)
    : State :=
  mkState (RepositoryInfo.name <$> repositories) (detailLevel st) (tokenCount st).

(** The button [Clear All]: [setSelectedRepos([])], and nothing else. *)
Definition clearAll (st : State) : State :=
  mkState [] (detailLevel st) (tokenCount st).

Definition getTokenColor (tokens : Z) : string :=
  if tokens <? 1000 then "bg-green-600"
  else if tokens <? 5000 then "bg-yellow-600"
  else if tokens <? 10000 then "bg-orange-600"
  else "bg-red-600".

(** The count shown as [Filtered commits]:
    [commits.filter(c => selectedRepos.length === 0 ||
       selectedRepos.includes(c.repository?.name || 'unknown')).length] *)
Definition filteredCommitsShown (commits : list Commit) (st : State) : nat :=
  length
    (List.filter
       (λ c, bool_decide (length (selectedRepos st) = 0%nat)
             || JS.includes (selectedRepos st)
                  (JS.or_string (Repository.name <$> repository c) "unknown"))
       commits).

(** The number shown as [Tokens per commit]:
    [getTokensPerCommit(detailLevel[0])] *)
Definition tokensPerCommitShown (st : State) : Z :=
  getTokensPerCommit (detailLevel st).

End CommitFilter.

(** ** EnhancedCommitExporter.tsx *)

Module EnhancedCommitExporter.

(** The props of the component. *)
Record Props := mkProps {
  commits : list Commit;
  filteredCommits : list Commit;
  username : string;
  selectedRepos : list string;
  dateRange : DateRange;
  detailLevel : Z;
  tokenCount : Z
}.

(** *** The per-commit templates

    A template literal is the list of its literal chunks and of its
    [${...}] holes.  [Expr] lists the expressions that occur in the holes of
    [formatCommitByDetailLevel]. *)
Inductive Expr :=
| EIndex                      (* index *)
| EShortSha                   (* commit.sha.substring(0, 8) *)
| ESha                        (* commit.sha *)
| ETitle                      (* title *)
| EBody                       (* body *)
| EAuthorName                 (* commit.commit.author.name *)
| EAuthorEmail                (* commit.commit.author.email *)
| EDate (pattern : string)    (* format(date, pattern) *)
| ERepository                 (* commit.repository?.name || 'Unknown' *)
| EStats                      (* commit.stats ? `+${..} -${..}` : 'N/A' *)
| EFiles                      (* commit.files ? commit.files.length : 'N/A' *)
| EUrl.                       (* commit.html_url *)

Inductive Seg :=
| Lit (s : string)
| Hole (e : Expr).

(** [WhenBody segs] is the hole [${body ? `segs` : ''}]. *)
Inductive Piece :=
| Plain (s : Seg)
| WhenBody (segs : list Seg).

(** [commit.commit.message.split('\n')] *)
Definition messageLines (c : Commit) : list string :=
  JS.split_lines (GitCommit.message (commit c)).

(** [const title = message[0]] *)
Definition title (c : Commit) : string := hd "" (messageLines c).

(** [const body = message.slice(1).join('\n').trim()] *)
Definition body (c : Commit) : string :=
  JS.trim (JS.join JS.LF (JS.slice1 (messageLines c))).

Definition evalExpr `{Env} (c : Commit) (index : nat) (e : Expr) : string :=
  match e with
  | EIndex => JS.string_of_nat index
  | EShortSha => JS.substring0 8 (sha c)
  | ESha => sha c
  | ETitle => title c
  | EBody => body c
  | EAuthorName => Author.name (GitCommit.author (commit c))
  | EAuthorEmail => Author.email (GitCommit.author (commit c))
  | EDate pattern => format (Author.date (GitCommit.author (commit c))) pattern
  | ERepository => JS.or_string (Repository.name <$> repository c) "Unknown"
  | EStats =>
      match stats c with
      | Some st =>
          "+" +:+ JS.string_of_Z (JS.or_number (Stats.additions st) 0)
          +:+ " -" +:+ JS.string_of_Z (JS.or_number (Stats.deletions st) 0)
      | None => "N/A"
      end
  | EFiles =>
      match files c with
      | Some fs => JS.string_of_nat (length fs)
      | None => "N/A"
      end
  | EUrl => html_url c
  end.

Definition renderSeg `{Env} (c : Commit) (index : nat) (s : Seg) : string :=
  match s with
  | Lit s => s
  | Hole e => evalExpr c index e
  end.

Definition renderSegs `{Env} (c : Commit) (index : nat) (segs : list Seg)
    : string :=
  foldr (λ s acc, renderSeg c index s +:+ acc) "" segs.

Definition renderPiece `{Env} (c : Commit) (index : nat) (p : Piece) : string :=
  match p with
  | Plain s => renderSeg c index s
  | WhenBody segs => if decide (body c = "") then "" else renderSegs c index segs
  end.

Definition render `{Env} (c : Commit) (index : nat) (t : list Piece) : string :=
  foldr (λ p acc, renderPiece c index p +:+ acc) "" t.

(** case 1: Minimal *)
Definition minimal : list Piece :=
  [ Plain (Hole EIndex); Plain (Lit ". "); Plain (Hole EShortSha);
    Plain (Lit " - "); Plain (Hole ETitle); Plain (Lit JS.LF) ].

(** case 2: Basic *)
Definition basic : list Piece :=
  [ Plain (Hole EIndex); Plain (Lit ". **"); Plain (Hole ETitle);
    Plain (Lit "**"); Plain (Lit JS.LF);
    Plain (Lit "   SHA: "); Plain (Hole EShortSha);
    Plain (Lit " | Author: "); Plain (Hole EAuthorName);
    Plain (Lit " | "); Plain (Hole (EDate "MMM dd, yyyy")); Plain (Lit JS.LF) ].

(** case 3: Standard *)
Definition standard : list Piece :=
  [ Plain (Lit "### "); Plain (Hole EIndex); Plain (Lit ". ");
    Plain (Hole ETitle); Plain (Lit JS.LF);
    Plain (Lit "**SHA:** "); Plain (Hole EShortSha); Plain (Lit JS.LF);
    Plain (Lit "**Date:** "); Plain (Hole (EDate "yyyy-MM-dd HH:mm"));
    Plain (Lit JS.LF);
    Plain (Lit "**Author:** "); Plain (Hole EAuthorName); Plain (Lit JS.LF);
    WhenBody [Lit "**Details:** "; Hole EBody; Lit JS.LF]; Plain (Lit JS.LF);
    Plain (Lit "---"); Plain (Lit JS.LF) ].

(** case 4: Detailed *)
Definition detailed : list Piece :=
  [ Plain (Lit "### "); Plain (Hole EIndex); Plain (Lit ". ");
    Plain (Hole ETitle); Plain (Lit JS.LF);
    Plain (Lit "**SHA:** "); Plain (Hole EShortSha); Plain (Lit JS.LF);
    Plain (Lit "**Date:** "); Plain (Hole (EDate "yyyy-MM-dd HH:mm:ss"));
    Plain (Lit JS.LF);
    Plain (Lit "**Author:** "); Plain (Hole EAuthorName); Plain (Lit " <");
    Plain (Hole EAuthorEmail); Plain (Lit ">"); Plain (Lit JS.LF);
    Plain (Lit "**Repository:** "); Plain (Hole ERepository);
    Plain (Lit JS.LF);
    WhenBody [Lit "**Description:** "; Hole EBody; Lit JS.LF];
    Plain (Lit JS.LF);
    Plain (Lit "**URL:** "); Plain (Hole EUrl); Plain (Lit JS.LF);
    Plain (Lit JS.LF);
    Plain (Lit "---"); Plain (Lit JS.LF) ].

(** case 5: Maximum *)
Definition maximum : list Piece :=
  [ Plain (Lit "### "); Plain (Hole EIndex); Plain (Lit ". ");
    Plain (Hole ETitle); Plain (Lit JS.LF);
    Plain (Lit "**SHA:** "); Plain (Hole ESha); Plain (Lit JS.LF);
    Plain (Lit "**Date:** "); Plain (Hole (EDate "yyyy-MM-dd HH:mm:ss"));
    Plain (Lit JS.LF);
    Plain (Lit "**Author:** "); Plain (Hole EAuthorName); Plain (Lit " <");
    Plain (Hole EAuthorEmail); Plain (Lit ">"); Plain (Lit JS.LF);
    Plain (Lit "**Repository:** "); Plain (Hole ERepository);
    Plain (Lit JS.LF);
    WhenBody [Lit "**Description:**"; Lit JS.LF; Hole EBody; Lit JS.LF];
    Plain (Lit JS.LF);
    Plain (Lit "**Stats:** "); Plain (Hole EStats); Plain (Lit JS.LF);
    Plain (Lit "**Files changed:** "); Plain (Hole EFiles); Plain (Lit JS.LF);
    Plain (Lit "**URL:** "); Plain (Hole EUrl); Plain (Lit JS.LF);
    Plain (Lit JS.LF);
    Plain (Lit "---"); Plain (Lit JS.LF) ].

(** The [switch (level)]: the default case formats at level 3. *)
Definition template (level : Z) : list Piece :=
  match level with
  | 1 => minimal
  | 2 => basic
  | 3 => standard
  | 4 => detailed
  | 5 => maximum
  | _ => standard
  end.

Definition formatCommitByDetailLevel `{Env} (c : Commit) (index : nat)
    (level : Z) : string :=
  render c index (template level).

Definition names (level : Z) : option string :=
  match level with
  | 1 => Some "Minimal"
  | 2 => Some "Basic"
  | 3 => Some "Standard"
  | 4 => Some "Detailed"
  | 5 => Some "Maximum"
  | _ => None
  end.

Definition getDetailLevelName (level : Z) : string :=
  JS.or_string (names level) "Standard".

(** *** Summary statistics *)

(** The accumulator step of both [reduce] calls:
    [acc[key] = (acc[key] || 0) + 1]. *)
Definition countKey (acc : JS.object) (key : string) : JS.object :=
  JS.set acc key (JS.or_number (JS.get acc key) 0 + 1).

Definition repoCount (p : Props) : JS.object :=
  foldl (λ acc c,
           countKey acc (JS.or_string (Repository.name <$> repository c) "Unknown"))
        [] (filteredCommits p).

Definition getRepositoryBreakdown (p : Props) : string :=
  JS.join JS.LF
    ((λ e : string * Z,
        "- **" +:+ e.1 +:+ ":** " +:+ JS.string_of_Z e.2 +:+ " commits")
       <$> JS.entries (repoCount p)).

Definition authorCount (p : Props) : JS.object :=
  foldl (λ acc c, countKey acc (Author.name (GitCommit.author (commit c))))
        [] (filteredCommits p).

(** [Object.entries(authorCount).sort(([,a], [,b]) => b - a).slice(0, 5)] *)
Definition topAuthors (p : Props) : list (string * Z) :=
  JS.slice0 5
    (JS.sort (λ a b : string * Z, b.2 - a.2) (JS.entries (authorCount p))).

Definition getAuthorAnalysis (p : Props) : string :=
  JS.join JS.LF
    ((λ e : string * Z,
        "- **" +:+ e.1 +:+ ":** " +:+ JS.string_of_Z e.2 +:+ " commits")
       <$> topAuthors p).

Definition msPerDay : Z := 1000 * 60 * 60 * 24.

(** [Math.ceil((dateRange.to.getTime() - dateRange.from.getTime())
              / (1000 * 60 * 60 * 24))]

    The two instants are integers of at most 8.64e15 in absolute value.
    Their difference is computed here on the integers.  The number that the
    code computes is that integer whenever it is below 2^53 in absolute
    value, and its quotient by the milliseconds of a day is then rounded to
    a whole number only when it is one, so that the ceiling is the same. *)
Definition timeSpan (p : Props) : Z * bool :=
  JS.ceil_div (to (dateRange p) - from (dateRange p)) msPerDay.

(** [filteredCommits.length / Math.ceil(...)] *)
Definition averageCommitsPerDay (p : Props) : JS.number :=
  JS.divide (Z.of_nat (length (filteredCommits p))) (timeSpan p).

(** *** The document *)

Definition header `{Env} (p : Props) : string :=
  "# GitHub Commit Analysis - Optimized for LLM" +:+ JS.LF +:+
  JS.LF +:+
  "**User:** " +:+ username p +:+ JS.LF +:+
  "**Repositories:** " +:+
    (if decide (0 < length (selectedRepos p))%nat
     then JS.join ", " (selectedRepos p) else "All repositories") +:+ JS.LF +:+
  "**Date Range:** " +:+ format (from (dateRange p)) "yyyy-MM-dd" +:+ " to "
    +:+ format (to (dateRange p)) "yyyy-MM-dd" +:+ JS.LF +:+
  "**Total Commits:** " +:+ JS.string_of_nat (length (filteredCommits p))
    +:+ " (filtered from " +:+ JS.string_of_nat (length (commits p)) +:+ ")"
    +:+ JS.LF +:+
  "**Detail Level:** " +:+ getDetailLevelName (detailLevel p) +:+ JS.LF +:+
  "**Estimated Tokens:** " +:+ toLocaleString (tokenCount p) +:+ JS.LF +:+
  "**Generated:** " +:+ format now "yyyy-MM-dd HH:mm:ss" +:+ JS.LF +:+
  JS.LF +:+
  "---" +:+ JS.LF +:+
  JS.LF +:+
  "## Commit Data" +:+ JS.LF +:+
  JS.LF.

(** [filteredCommits.map((commit, index) =>
       formatCommitByDetailLevel(commit, index + 1, detailLevel))] *)
Definition commitBlocks `{Env} (p : Props) : list string :=
  imap (λ index c, formatCommitByDetailLevel c (index + 1) (detailLevel p))
       (filteredCommits p).

Definition commitDetails `{Env} (p : Props) : string :=
  JS.join JS.LF (commitBlocks p).

Definition summary `{Env} (p : Props) : string :=
  JS.LF +:+
  "## Summary" +:+ JS.LF +:+
  JS.LF +:+
  "- **Commits analyzed:** " +:+ JS.string_of_nat (length (filteredCommits p))
    +:+ JS.LF +:+
  "- **Repositories:** " +:+
    (if decide (0 < length (selectedRepos p))%nat
     then JS.string_of_nat (length (selectedRepos p)) else "All") +:+ JS.LF +:+
  "- **Time span:** " +:+ JS.string_of_Z (timeSpan p).1 +:+ " days" +:+ JS.LF +:+
  "- **Average commits/day:** " +:+ toFixed (averageCommitsPerDay p) +:+ JS.LF +:+
  JS.LF +:+
  "### Repository Breakdown" +:+ JS.LF +:+
  getRepositoryBreakdown p +:+ JS.LF +:+
  JS.LF +:+
  "### Author Analysis" +:+ JS.LF +:+
  getAuthorAnalysis p +:+ JS.LF +:+
  JS.LF +:+
  "---" +:+ JS.LF +:+
  JS.LF +:+
  "*This data is optimized for LLM analysis with "
    +:+ JS.string_of_Z (detailLevel p)
    +:+ "/5 detail level. Ask questions about patterns, productivity, code changes, or development insights.*".

(** [generateOptimizedFormat]: the text handed to [setExportedText]. *)
Definition generateOptimizedFormat `{Env} (p : Props) : string :=
  let fullText := header p +:+ commitDetails p +:+ summary p in
  fullText.

End EnhancedCommitExporter.

(** ** CommitExporter.tsx *)

Module CommitExporter.

(** [commits.length / Math.ceil((dateRange.to.getTime()
       - dateRange.from.getTime()) / (1000 * 60 * 60 * 24))] of
    [generateLLMFormat]. *)
Definition averageCommitsPerDay (commits : list Commit) (dateRange : DateRange)
    : JS.number :=
  JS.divide (Z.of_nat (length commits))
    (JS.ceil_div (to dateRange - from dateRange) (1000 * 60 * 60 * 24)).

(** [[...new Set(commits.map(c => c.commit.author.name))]] *)
Definition uniqueAuthors (commits : list Commit) : list string :=
  JS.unique ((λ c, Author.name (GitCommit.author (commit c))) <$> commits).

(** The authors of the breakdown with
    [commits.filter(c => c.commit.author.name === author).length]. *)
Definition authorCommits (commits : list Commit) : list (string * nat) :=
  (λ author,
     (author,
      length
        (List.filter
           (λ c, bool_decide (Author.name (GitCommit.author (commit c)) = author))
           commits)))
    <$> uniqueAuthors commits.

(** The section [Author Breakdown] of [generateLLMFormat]. *)
Definition authorBreakdown (commits : list Commit) : string :=
  JS.join JS.LF
    ((λ e : string * nat,
        "- **" +:+ e.1 +:+ ":** " +:+ JS.string_of_nat e.2 +:+ " commits")
       <$> authorCommits commits).

End CommitExporter.

(** ** DateRangePicker.tsx *)

Module DateRangePicker.

(** [handleDateSelect(range)]: the range handed to [onDateRangeChange], if
    any.  [range?.from] and [range?.to] are the two optional dates of the
    calendar selection. *)
Definition handleDateSelect (range_from range_to : option Z)
    : option DateRange :=
  match range_from, range_to with
  | Some f, Some t => Some (mkDateRange f t)
  | Some f, None => Some (mkDateRange f f)
  | None, _ => None
  end.

End DateRangePicker.

(** ** pages/Index.tsx *)

Module Index.

Record Toast := mkToast {
  toast_title : string;
  toast_description : string;
  toast_destructive : bool
}.

(** The part of the component state that [fetchCommits] touches, and the
    notifications shown so far. *)
Record State := mkState {
  commits : list Commit;
  filteredCommits : list Commit;
  loading : bool;
  toasts : list Toast
}.

(** The query of one page request:
    [/repos/${username}/${selectedRepo}/commits?since&until&per_page&page]. *)
Record Request := mkRequest {
  req_username : string;
  req_repo : string;
  req_since : Z;
  req_until : Z;
  req_per_page : Z;
  req_page : Z
}.

(** What a request comes back with: a response with [ok] set and its JSON
    body, a response with [ok] unset, or a rejected [fetch]. *)
Inductive Response :=
| Ok (pageCommits : list Commit)
| NotOk
| Rejected.

(** The remote API, as the function from requests to responses. *)
Definition Api := Request → Response.

Definition perPage : nat := 100.

(** [{ ...commit, repository: { name: selectedRepo } }] *)
Definition withRepo (selectedRepo : string) (c : Commit) : Commit :=
  mkCommit (sha c) (commit c) (html_url c) (stats c) (files c)
    (Some (Repository.mk selectedRepo)).

(** How the body of the [try] block ends. *)
Inductive Outcome :=
| Completed (allCommits : list Commit)
| Thrown.

(** The request of the loop for page [page]: [since] and [until] are the two
    ends of the range, [per_page] is [perPage]. *)
Definition pageRequest (username selectedRepo : string) (dateRange : DateRange)
    (page : Z) : Request :=
  mkRequest username selectedRepo (from dateRange) (to dateRange)
    (Z.of_nat perPage) page.

(** The [while (true)] loop, with the list of the requests issued so far.
    [fuel] bounds the number of iterations; [None] means the bound was
    reached with the loop still running. *)
Fixpoint fetchLoop (fuel : nat) (api : Api) (username selectedRepo : string)
    (dateRange : DateRange) (allCommits : list Commit) (page : Z)
    (issued : list Request) : option (Outcome * list Request) :=
  match fuel with
  | O => None
  | S fuel' =>
      let request := pageRequest username selectedRepo dateRange page in
      let issued := issued ++ [request] in
      match api request with
      | NotOk | Rejected => Some (Thrown, issued)
      | Ok pageCommits =>
          if decide (length pageCommits = 0%nat)
          then Some (Completed allCommits, issued)
          else
            let commitsWithRepo := withRepo selectedRepo <$> pageCommits in
            let allCommits := allCommits ++ commitsWithRepo in
            let page := page + 1 in
            if decide (length pageCommits < perPage)%nat
            then Some (Completed allCommits, issued)
            else fetchLoop fuel' api username selectedRepo dateRange
                   allCommits page issued
      end
  end.

Definition missingInformation : Toast :=
  mkToast "Missing information" "Please select a repository and date range"
    true.

Definition commitsLoaded (n : nat) : Toast :=
  mkToast "Commits loaded"
    ("Found " +:+ JS.string_of_nat n +:+ " commits in the selected date range")
    false.

Definition fetchFailed : Toast :=
  mkToast "Error" "Failed to fetch commits. Please try again." true.

(** [fetchCommits]: the state after the handler has run and the requests it
    issued. *)
Definition fetchCommits (fuel : nat) (api : Api) (username selectedRepo : string)
    (dateRange : option DateRange) (st : State)
    : option (State * list Request) :=
  match dateRange with
  | Some range =>
      if decide (selectedRepo = "") then
        Some (mkState (commits st) (filteredCommits st) (loading st)
                (toasts st ++ [missingInformation]), [])
      else
        (* setLoading(true); setCommits([]); *)
        match fetchLoop fuel api username selectedRepo range [] 1 [] with
        | Some (Completed allCommits, issued) =>
            Some (mkState allCommits allCommits false
                    (toasts st ++ [commitsLoaded (length allCommits)]), issued)
        | Some (Thrown, issued) =>
            Some (mkState [] (filteredCommits st) false
                    (toasts st ++ [fetchFailed]), issued)
        | None => None
        end
  | None =>
      Some (mkState (commits st) (filteredCommits st) (loading st)
              (toasts st ++ [missingInformation]), [])
  end.

(** The [repositories] prop handed to the filter:
    [repositories.filter(repo =>
       commits.some(c => c.repository?.name === repo.name))] *)
Definition filterRepositories (repositories : list RepositoryInfo.t)
    (commits : list Commit) : list RepositoryInfo.t :=
  List.filter
    (λ repo,
       existsb
         (λ c, bool_decide (Repository.name <$> repository c
                            = Some (RepositoryInfo.name repo)))
         commits)
    repositories.

End Index.

(** ** pages/Index.tsx, first version

    The page before the filter was added: the same loop without the
    repository tag, and no filtered list. *)

Module IndexV1.

Record State := mkState {
  commits : list Commit;
  loading : bool;
  toasts : list Index.Toast
}.

Fixpoint fetchLoop (fuel : nat) (api : Index.Api)
    (username selectedRepo : string) (dateRange : DateRange)
    (allCommits : list Commit) (page : Z) (issued : list Index.Request)
    : option (Index.Outcome * list Index.Request) :=
  match fuel with
  | O => None
  | S fuel' =>
      let request := Index.pageRequest username selectedRepo dateRange page in
      let issued := issued ++ [request] in
      match api request with
      | Index.NotOk | Index.Rejected => Some (Index.Thrown, issued)
      | Index.Ok pageCommits =>
          if decide (length pageCommits = 0%nat)
          then Some (Index.Completed allCommits, issued)
          else
            let allCommits := allCommits ++ pageCommits in
            let page := page + 1 in
            if decide (length pageCommits < Index.perPage)%nat
            then Some (Index.Completed allCommits, issued)
            else fetchLoop fuel' api username selectedRepo dateRange
                   allCommits page issued
      end
  end.

Definition fetchCommits (fuel : nat) (api : Index.Api)
    (username selectedRepo : string) (dateRange : option DateRange)
    (st : State) : option (State * list Index.Request) :=
  match dateRange with
  | Some range =>
      if decide (selectedRepo = "") then
        Some (mkState (commits st) (loading st)
                (toasts st ++ [Index.missingInformation]), [])
      else
        (* setLoading(true); setCommits([]); *)
        match fetchLoop fuel api username selectedRepo range [] 1 [] with
        | Some (Index.Completed allCommits, issued) =>
            Some (mkState allCommits false
                    (toasts st ++ [Index.commitsLoaded (length allCommits)]),
                  issued)
        | Some (Index.Thrown, issued) =>
            Some (mkState [] false (toasts st ++ [Index.fetchFailed]), issued)
        | None => None
        end
  | None =>
      Some (mkState (commits st) (loading st)
              (toasts st ++ [Index.missingInformation]), [])
  end.

End IndexV1.

(** ** Observations on the rendered texts

    The notions in which the properties below are stated: the fields that a
    per-commit template renders, the ranking of authors by commit count and
    first encounter, the total that a reader finds in the document, and the
    requests of a run of the pagination loop.  Nothing here is part of the
    components. *)

Module Observations.
Import EnhancedCommitExporter.

(** *** The fields that a template renders *)

Global Instance Expr_eq_dec : EqDecision Expr.
Proof. solve_decision. Defined.

Global Instance Seg_eq_dec : EqDecision Seg.
Proof. solve_decision. Defined.

Definition segHoles (segs : list Seg) : list Expr :=
  omap (λ s, match s with Hole e => Some e | Lit _ => None end) segs.

(** The holes of a template, those of the [body ? ... : ''] parts included. *)
Definition holes (t : list Piece) : list Expr :=
  t ≫= λ p, match p with Plain s => segHoles [s] | WhenBody segs => segHoles segs end.

(** The fields that [formatCommitByDetailLevel] renders at a level. *)
Definition fieldsRendered (level : Z) : list Expr := holes (template level).

Definition isDate (e : Expr) : bool :=
  match e with EDate _ => true | _ => false end.

Definition isLetter (a : ascii) : bool :=
  let n := Ascii.N_of_ascii a in
  ((65 <=? n) && (n <=? 90) || (97 <=? n) && (n <=? 122))%N.

(** The date units of a date-fns pattern: its letters ([y] year, [M] month,
    [d] day, [H] hour, [m] minute, [s] second). *)
Definition dateUnits (pattern : string) : list ascii :=
  List.filter isLetter (String.list_ascii_of_string pattern).

(** [carries g f]: a block that renders [g] contains the field [f].  The
    full hash carries the short hash, a date pattern carries the patterns
    whose units it has, and every expression carries itself. *)
Definition carries (g f : Expr) : bool :=
  match f, g with
  | EShortSha, ESha => true
  | EDate pf, EDate pg => bool_decide (dateUnits pf ⊆ dateUnits pg)
  | _, _ => bool_decide (f = g)
  end.

(** [pieceCarries f p]: the piece [p] of a template renders a hole that
    carries [f]; a [body ? ... : ''] part does so for the body only. *)
Definition pieceCarries (f : Expr) (p : Piece) : bool :=
  match p with
  | Plain (Hole g) => carries g f
  | Plain (Lit _) => false
  | WhenBody segs => bool_decide (f = EBody) && bool_decide (Hole EBody ∈ segs)
  end.

(** [occursIn s t]: the text [s] occurs in the text [t]. *)
Definition occursIn (s t : string) : Prop :=
  ∃ before after : string, t = before +:+ s +:+ after.

(** *** What a block shows

    The text of a field of a commit, as the reader of a block looks for it:
    the position, the hash and its first eight characters, the first line
    of the message and the trimmed rest, the name and the address of the
    author, the author date in a date-fns pattern, the name of the
    repository (['Unknown'] without one), the added and deleted lines, the
    number of files (['N/A'] when not given) and the address of the
    commit. *)
Definition fieldText `{Env} (c : Commit) (index : nat) (f : Expr) : string :=
  match f with
  | EIndex => JS.string_of_nat index
  | EShortSha => JS.substring0 8 (sha c)
  | ESha => sha c
  | ETitle => hd "" (JS.split_lines (GitCommit.message (commit c)))
  | EBody =>
      JS.trim (JS.join JS.LF
                 (JS.slice1 (JS.split_lines (GitCommit.message (commit c)))))
  | EAuthorName => Author.name (GitCommit.author (commit c))
  | EAuthorEmail => Author.email (GitCommit.author (commit c))
  | EDate pattern => format (Author.date (GitCommit.author (commit c))) pattern
  | ERepository =>
      match repository c with
      | Some r =>
          if decide (Repository.name r = "") then "Unknown"
          else Repository.name r
      | None => "Unknown"
      end
  | EStats =>
      match stats c with
      | Some st =>
          "+" +:+ JS.string_of_Z (default 0 (Stats.additions st))
          +:+ " -" +:+ JS.string_of_Z (default 0 (Stats.deletions st))
      | None => "N/A"
      end
  | EFiles =>
      match files c with
      | Some fs => JS.string_of_nat (length fs)
      | None => "N/A"
      end
  | EUrl => html_url c
  end.

(** The formatter renders the field [f] at [level]: whatever the commit,
    its position and the imports, the text of the field occurs in the
    block that the formatter returns. *)
Definition renders (level : Z) (f : Expr) : Prop :=
  ∀ (E : Env) (c : Commit) (index : nat),
    occursIn (fieldText c index f) (formatCommitByDetailLevel c index level).

(** **** Probes

    A test for occurrence, a commit whose fields are all different, and
    imports that print no date or only the dates of one pattern: they tell
    apart the fields that a block shows. *)

Fixpoint occursInb (s t : string) : bool :=
  String.prefix s t
  || match t with
     | String _ t' => occursInb s t'
     | "" => false
     end.

Definition silent : Env :=
  {| format := λ _ _, "";
     toLocaleString := λ _, "";
     toFixed2 := λ _ _, "";
     now := 0 |}.

Definition onlyPattern (p : string) : Env :=
  {| format := λ _ pattern, if decide (pattern = p) then "@@" else "";
     toLocaleString := λ _, "";
     toFixed2 := λ _ _, "";
     now := 0 |}.

Definition probe : Commit :=
  mkCommit "shaAAAAAxBBBB"
    (GitCommit.mk (Author.mk "Name" "e.mail" 0) ("Title" +:+ JS.LF +:+ "Body"))
    "http://u" (Some (Stats.mk (Some 22) (Some 33)))
    (Some ["a"; "b"; "c"; "d"]) (Some (Repository.mk "Rrr")).

(** The block of the probe at [level] shows the text of [f]. *)
Definition shows (level : Z) (f : Expr) : bool :=
  occursInb (fieldText (H := silent) probe 7 f)
    (formatCommitByDetailLevel (H := silent) probe 7 level).

Global Instance Piece_eq_dec : EqDecision Piece.
Proof. solve_decision. Defined.

(** The template [t] has a piece for the field [f]: a hole of its own for a
    date, a piece that carries it for any other field. *)
Definition shownBy (t : list Piece) (f : Expr) : bool :=
  if isDate f then bool_decide (Plain (Hole f) ∈ t)
  else existsb (pieceCarries f) t.

(** The patterns of the date holes of a template. *)
Definition datePatterns (t : list Piece) : list string :=
  omap (λ f, match f with EDate p => Some p | _ => None end) (holes t).

(** *** The ranking of the authors *)

(** The author names of the filtered commits, in input order. *)
Definition authorNames (p : Props) : list string :=
  (λ c, Author.name (GitCommit.author (commit c))) <$> filteredCommits p.

(** The number of commits of an author. *)
Definition commitsBy (names : list string) (a : string) : Z :=
  Z.of_nat (length (filter (λ x, x = a) names)).

(** [a] is first encountered before [b]: [a] occurs at a place of the input
    with no [b] in front of it. *)
Definition encounteredBefore (names : list string) (a b : string) : Prop :=
  a ≠ b ∧ ∃ l1 l2 : list string, names = l1 ++ a :: l2 ∧ b ∉ l1.

(** The order of the ranking: more commits first, and among equal counts
    the author encountered first. *)
Definition ranksBefore (names : list string) (e1 e2 : string * Z) : Prop :=
  e2.2 < e1.2 ∨ (e2.2 = e1.2 ∧ encounteredBefore names e1.1 e2.1).

(** [top] is the top five of the authors of [names]: the first five entries
    of the list of all authors with their commit counts, ranked. *)
Definition isTopFive (names : list string) (top : list (string * Z)) : Prop :=
  ∃ ranking : list (string * Z),
    (∀ a n, (a, n) ∈ ranking ↔ a ∈ names ∧ n = commitsBy names a)
    ∧ StronglySorted (ranksBefore names) ranking
    ∧ top = take 5 ranking.

(** The names in the order of their first occurrence, each once. *)
Definition firstOccurrences (names : list string) : list string :=
  foldl (λ acc a, if decide (a ∈ acc) then acc else acc ++ [a]) [] names.

(** *** The total that the document states

    What a reader of the exported text finds as its total: on the first
    line that starts with the label, the decimal number after the label. *)

Definition totalCommitsLabel : string := "**Total Commits:** ".

(** The lines of the header in front of the total; they depend on the user
    name, the selected repositories and the date range only. *)
Definition preamble `{Env} (username : string) (selectedRepos : list string)
    (dateRange : DateRange) : string :=
  "# GitHub Commit Analysis - Optimized for LLM" +:+ JS.LF +:+
  JS.LF +:+
  "**User:** " +:+ username +:+ JS.LF +:+
  "**Repositories:** " +:+
    (if decide (0 < length selectedRepos)%nat
     then JS.join ", " selectedRepos else "All repositories") +:+ JS.LF +:+
  "**Date Range:** " +:+ format (from dateRange) "yyyy-MM-dd" +:+ " to "
    +:+ format (to dateRange) "yyyy-MM-dd" +:+ JS.LF.

Definition isDigit (a : ascii) : bool :=
  let n := Ascii.N_of_ascii a in ((48 <=? n) && (n <=? 57))%N.

Fixpoint leadingDigits (s : string) : string :=
  match s with
  | String a s' => if isDigit a then String a (leadingDigits s') else ""
  | "" => ""
  end.

Fixpoint dropChars (n : nat) (s : string) : string :=
  match n, s with
  | S n', String _ s' => dropChars n' s'
  | _, _ => s
  end.

Definition statedTotalCommits (doc : string) : option nat :=
  match List.find (String.prefix totalCommitsLabel) (JS.split_lines doc) with
  | Some line =>
      let digits :=
        leadingDigits (dropChars (String.length totalCommitsLabel) line) in
      if decide (digits = "") then None
      else Nat.of_uint <$> NilEmpty.uint_of_string digits
  | None => None
  end.

Fixpoint hasLF (s : string) : bool :=
  match s with
  | String a s' => bool_decide (a = "010"%char) || hasLF s'
  | "" => false
  end.

(** A text without a line feed. *)
Definition singleLine (s : string) : Prop := hasLF s = false.

Fixpoint allDigits (s : string) : bool :=
  match s with
  | String a s' => isDigit a && allDigits s'
  | "" => true
  end.

(** *** The requests of the pagination loop *)

(** The requests for the [n] pages that start at page [page]. *)
Definition pageRequests (username selectedRepo : string) (dateRange : DateRange)
    (page : Z) (n : nat) : list Index.Request :=
  (λ k, Index.pageRequest username selectedRepo dateRange (page + Z.of_nat k))
    <$> seq 0 n.

(** The pages [fullPages] are what the API answers from page [page] on, and
    none of them is shorter than [perPage]. *)
Definition answersFull (api : Index.Api) (username selectedRepo : string)
    (dateRange : DateRange) (page : Z) (fullPages : list (list Commit))
    : Prop :=
  ∀ (i : nat) (p : list Commit), fullPages !! i = Some p →
    api (Index.pageRequest username selectedRepo dateRange (page + Z.of_nat i))
      = Index.Ok p
    ∧ (Index.perPage ≤ length p)%nat.

(** The commits that the API answers a request with; none when the request
    does not succeed. *)
Definition answered (api : Index.Api) (r : Index.Request) : list Commit :=
  match api r with
  | Index.Ok pageCommits => pageCommits
  | Index.NotOk | Index.Rejected => []
  end.

(** The outcome of the enhanced loop that corresponds to an outcome of the
    first version: the same commits, each with the tag of the repository. *)
Definition tagged (selectedRepo : string)
    (r : Index.Outcome * list Index.Request)
    : Index.Outcome * list Index.Request :=
  (match r.1 with
   | Index.Completed allCommits =>
       Index.Completed (Index.withRepo selectedRepo <$> allCommits)
   | Index.Thrown => Index.Thrown
   end, r.2).

(** *** The colours of the token badge *)

(** How alarming a colour of the badge is: green, yellow, orange, red. *)
Definition severity (colour : string) : nat :=
  if decide (colour = "bg-green-600") then 0
  else if decide (colour = "bg-yellow-600") then 1
  else if decide (colour = "bg-orange-600") then 2
  else 3.

(** *** Totals of a breakdown *)

(** The sum of the counts of a list of entries. *)
Definition total (entries : list (string * Z)) : Z :=
  foldr (λ e acc, e.2 + acc) 0 entries.

(** The repository names that the breakdown of the report counts, in input
    order. *)
Definition repoLabels (p : EnhancedCommitExporter.Props) : list string :=
  (λ c, JS.or_string (Repository.name <$> repository c) "Unknown")
    <$> filteredCommits p.

(** *** The ends of a text *)

Definition firstChar (s : string) : option ascii :=
  match s with
  | String a _ => Some a
  | "" => None
  end.

Fixpoint lastChar (s : string) : option ascii :=
  match s with
  | "" => None
  | String a "" => Some a
  | String _ s' => lastChar s'
  end.

(** The level whose tables are used for a level: the level itself between 1
    and 5, and 3 otherwise. *)
Definition effectiveLevel (level : Z) : Z :=
  if decide (1 ≤ level ≤ 5) then level else 3.

End Observations.

(** ** Sample data for the worked examples *)

Module Sample.

Definition commitBy (author : string) (hash : string) : Commit :=
  mkCommit hash
    (GitCommit.mk (Author.mk author (author +:+ "@example.org") 1704067200000)
       "Fix the parser")
    ("https://example.org/commit/" +:+ hash) None None
    (Some (Repository.mk "core")).

Definition january : DateRange := mkDateRange 1704067200000 1704240000000.

Definition idle : Index.State := Index.mkState [] [] false [].

(** An API that answers pages 1, 2 and 3 with 100, 100 and 37 commits. *)
Definition threePages : Index.Api :=
  λ r,
    if decide (Index.req_page r = 1) then Index.Ok (replicate 100 (commitBy "ann" "a1"))
    else if decide (Index.req_page r = 2) then Index.Ok (replicate 100 (commitBy "bob" "b2"))
    else if decide (Index.req_page r = 3) then Index.Ok (replicate 37 (commitBy "cy" "c3"))
    else Index.Ok [].

(** An API that answers page 1 with 100 commits and refuses page 2. *)
Definition failsOnSecond : Index.Api :=
  λ r,
    if decide (Index.req_page r = 1) then Index.Ok (replicate 100 (commitBy "ann" "a1"))
    else Index.NotOk.

(** A stand-in for the imports of the components, to run the examples. *)
Definition env : Env :=
  {| format := λ d pattern, pattern +:+ "@" +:+ JS.string_of_Z d;
     toLocaleString := JS.string_of_Z;
     toFixed2 := λ p q, JS.string_of_Z (p / q);
     now := 1704326400000 |}.

Definition threeCommits : list Commit :=
  [commitBy "ann" "a1"; commitBy "bob" "b2"; commitBy "ann" "a3"].

(** The range that the date picker hands over when only 2024-01-01 has been
    picked. *)
Definition singleDay : DateRange := mkDateRange 1704067200000 1704067200000.

Definition singleDayProps : EnhancedCommitExporter.Props :=
  EnhancedCommitExporter.mkProps threeCommits threeCommits "octocat" []
    singleDay 3 300.

Definition januaryProps : EnhancedCommitExporter.Props :=
  EnhancedCommitExporter.mkProps threeCommits threeCommits "octocat" ["core"]
    january 3 300.

(** Thirteen commits by A (5), B (5) and C (3); A is encountered first. *)
Definition tiedAuthorsProps : EnhancedCommitExporter.Props :=
  EnhancedCommitExporter.mkProps [] 
    ((λ a, commitBy a "c0") <$>
       ["A"; "B"; "A"; "C"; "B"; "A"; "B"; "C"; "A"; "B"; "A"; "B"; "C"])
    "octocat" [] january 3 1300.

(** Two commits, the first by an author named B and the second by an author
    whose name is the numeral 7. *)
Definition digitAuthorProps : EnhancedCommitExporter.Props :=
  EnhancedCommitExporter.mkProps []
    [commitBy "B" "b1"; commitBy "7" "c2"] "octocat" [] january 3 200.

(** An API that answers every page with 100 commits. *)
Definition alwaysFull : Index.Api :=
  λ _, Index.Ok (replicate 100 (commitBy "ann" "a1")).

(** A repository listing with two entries. *)
Definition listing : list RepositoryInfo.t :=
  [RepositoryInfo.mk "core" "octocat/core" "The core" "TypeScript";
   RepositoryInfo.mk "docs" "octocat/docs" "The manual" "Markdown"].

Definition idleV1 : IndexV1.State := IndexV1.mkState [] false [].

(** Three commits over a range whose end lies two days before its start. *)
Definition reversedProps : EnhancedCommitExporter.Props :=
  EnhancedCommitExporter.mkProps threeCommits threeCommits "octocat" []
    (mkDateRange 1704240000000 1704067200000) 3 300.

End Sample.

(** * Properties *)

(** ** Texts *)

Section TextFacts.

Lemma append_nil_l (s : string) : "" +:+ s = s.
Proof. reflexivity. Qed.

Lemma append_cons (a : ascii) (s t : string) :
  String a s +:+ t = String a (s +:+ t).
Proof. reflexivity. Qed.

Lemma append_nil_r (s : string) : s +:+ "" = s.
Proof. induction s as [|a s IH]; [done|]. by rewrite append_cons, IH. Qed.

Lemma append_assoc (s t u : string) : (s +:+ t) +:+ u = s +:+ t +:+ u.
Proof. induction s as [|a s IH]; [done|]. by rewrite !append_cons, IH. Qed.

Lemma prefix_append (s t : string) : String.prefix s (s +:+ t) = true.
Proof.
  induction s as [|a s IH]; [by destruct t|].
  rewrite append_cons. simpl. by destruct (Ascii.ascii_dec a a).
Qed.

End TextFacts.

(** ** Commit filter *)

Section CommitFilterFacts.
Import CommitFilter.

Lemma keeps_nil commit : keeps [] commit = true.
Proof. reflexivity. Qed.

Lemma keeps_cons r repos commit :
  keeps (r :: repos) commit = bool_decide (repoName commit ∈ r :: repos).
Proof. reflexivity. Qed.

Lemma filter_keeps_nil commits : List.filter (keeps []) commits = commits.
Proof.
  induction commits as [|c commits IH]; simpl; [done|]. by rewrite IH.
Qed.

(** [List.filter] with a boolean test is stdpp's [filter] on the
    corresponding proposition. *)
Lemma filter_bool_decide {A} (P : A → Prop) `{!∀ x, Decision (P x)}
    (p : A → bool) (l : list A) :
  (∀ x, p x = bool_decide (P x)) → List.filter p l = filter P l.
Proof.
  intros Hp. induction l as [|x l IH]; simpl; [done|].
  rewrite Hp, filter_cons, IH. by case_bool_decide; case_decide.
Qed.

Lemma repoName_tagged commit r :
  repository commit = Some r → Repository.name r ≠ "" →
  repoName commit = Repository.name r.
Proof.
  intros Hr Hne. unfold repoName. rewrite Hr. simpl.
  by destruct (decide (Repository.name r = "")).
Qed.

Lemma repoName_untagged commit :
  repository commit = None → repoName commit = "unknown".
Proof. intros Hr. unfold repoName. by rewrite Hr. Qed.

Lemma getTokensPerCommit_out_of_range level :
  level < 1 ∨ 5 < level → getTokensPerCommit level = 100.
Proof.
  intros Hl. unfold getTokensPerCommit, tokenMap.
  destruct level as [|p|p]; [reflexivity| |reflexivity].
  destruct p as [[[?|?|]|[?|?|]|]|[[?|?|]|[?|?|]|]|]; try reflexivity; lia.
Qed.

End CommitFilterFacts.

(** C3.  For a detail level between 1 and 5 the token estimate that
    [applyFilters] reports is the number of filtered commits times the constant
    of that level (25, 50, 100, 150, 200), and the filtered list does not
    depend on the level, so changing only the level changes the estimate
    according to that table. *)
Theorem applyFilters_token_estimate (commits : list Commit)
    (repos : list string) (level : Z) :
  1 ≤ level ≤ 5 →
  let constant := nth (Z.to_nat (level - 1)) [25; 50; 100; 150; 200] 0 in
  (CommitFilter.applyFilters commits repos level).2
    = Z.of_nat (length (CommitFilter.applyFilters commits repos level).1) * constant
  ∧ ∀ level' : Z,
      (CommitFilter.applyFilters commits repos level').1
        = (CommitFilter.applyFilters commits repos level).1.
Proof.
  intros Hl. split; [|done].
  unfold CommitFilter.applyFilters; simpl.
  assert (level = 1 ∨ level = 2 ∨ level = 3 ∨ level = 4 ∨ level = 5)
    as [->|[->|[->|[->| ->]]]] by lia; reflexivity.
Qed.

Lemma applyFilters_token_estimate_witness :
  1 ≤ 4 ≤ 5 ∧
  (CommitFilter.applyFilters
     [mkCommit "a1" (GitCommit.mk (Author.mk "ann" "a@x" 0) "m") "u" None None
        (Some (Repository.mk "core"))] [] 4).2 = 150.
Proof.
  split; [lia|].
  exact (proj1 (applyFilters_token_estimate
    [mkCommit "a1" (GitCommit.mk (Author.mk "ann" "a@x" 0) "m") "u" None None
       (Some (Repository.mk "core"))] [] 4 ltac:(lia))).
Defined.

(** C4.  With an empty selection [applyFilters] returns the commit list
    unchanged.  With a non-empty selection it returns the commits whose
    repository name (the name the filter reads, [repoName]) is a member of the
    selection, in their original relative order: the result is the filter of
    the input by that membership test, hence a sublist of the input, and a
    commit tagged with a non-empty name is kept exactly when that name is
    selected. *)
Theorem applyFilters_repository_selection (commits : list Commit) (detail : Z) :
  (CommitFilter.applyFilters commits [] detail).1 = commits
  ∧ ∀ repos : list string, repos ≠ [] →
      let kept := (CommitFilter.applyFilters commits repos detail).1 in
      kept = filter (λ c, CommitFilter.repoName c ∈ repos) commits
      ∧ kept `sublist_of` commits
      ∧ (∀ c, c ∈ kept ↔ c ∈ commits ∧ CommitFilter.repoName c ∈ repos)
      ∧ (∀ c r, repository c = Some r → Repository.name r ≠ "" →
           (c ∈ kept ↔ c ∈ commits ∧ Repository.name r ∈ repos)).
Proof.
  split; [apply filter_keeps_nil|].
  intros repos Hne kept.
  assert (kept = filter (λ c, CommitFilter.repoName c ∈ repos) commits) as Hk.
  { subst kept. unfold CommitFilter.applyFilters; simpl.
    apply filter_bool_decide. intros c.
    destruct repos as [|r repos]; [done|]. apply keeps_cons. }
  split; [exact Hk|]. rewrite Hk.
  split; [apply sublist_filter|].
  split.
  - intros c. rewrite list_elem_of_filter. tauto.
  - intros c r Hr Hn. rewrite list_elem_of_filter.
    rewrite (repoName_tagged c r Hr Hn). tauto.
Qed.

Lemma applyFilters_repository_selection_witness :
  ["core"] ≠ [] ∧
  (CommitFilter.applyFilters
     [mkCommit "a1" (GitCommit.mk (Author.mk "ann" "a@x" 0) "m") "u" None None
        (Some (Repository.mk "core"));
      mkCommit "b2" (GitCommit.mk (Author.mk "bob" "b@x" 0) "n") "v" None None
        (Some (Repository.mk "docs"))] ["core"] 3).1
   `sublist_of`
     [mkCommit "a1" (GitCommit.mk (Author.mk "ann" "a@x" 0) "m") "u" None None
        (Some (Repository.mk "core"));
      mkCommit "b2" (GitCommit.mk (Author.mk "bob" "b@x" 0) "n") "v" None None
        (Some (Repository.mk "docs"))].
Proof.
  split; [discriminate|].
  exact (proj1 (proj2 (proj2 (applyFilters_repository_selection
    [mkCommit "a1" (GitCommit.mk (Author.mk "ann" "a@x" 0) "m") "u" None None
       (Some (Repository.mk "core"));
     mkCommit "b2" (GitCommit.mk (Author.mk "bob" "b@x" 0) "n") "v" None None
       (Some (Repository.mk "docs"))] 3) ["core"] ltac:(discriminate)))).
Defined.

(** C9.  For a detail level outside 1..5 the per-commit token constant is 100,
    the constant of level 3, and the estimate of [applyFilters] is the number
    of filtered commits times 100. *)
Theorem applyFilters_out_of_range_level (commits : list Commit)
    (repos : list string) (level : Z) :
  level < 1 ∨ 5 < level →
  CommitFilter.getTokensPerCommit level = 100
  ∧ CommitFilter.getTokensPerCommit level = CommitFilter.getTokensPerCommit 3
  ∧ (CommitFilter.applyFilters commits repos level).2
      = Z.of_nat (length (CommitFilter.applyFilters commits repos level).1) * 100.
Proof.
  intros Hl. pose proof (getTokensPerCommit_out_of_range level Hl) as H.
  split; [exact H|]. split; [by rewrite H|].
  unfold CommitFilter.applyFilters; simpl. by rewrite H.
Qed.

Lemma applyFilters_out_of_range_level_witness :
  (7 < 1 ∨ 5 < 7) ∧
  (CommitFilter.applyFilters
     [mkCommit "a1" (GitCommit.mk (Author.mk "ann" "a@x" 0) "m") "u" None None
        (Some (Repository.mk "core"))] [] 7).2 = 100.
Proof.
  split; [right; lia|].
  exact (proj2 (proj2 (applyFilters_out_of_range_level
    [mkCommit "a1" (GitCommit.mk (Author.mk "ann" "a@x" 0) "m") "u" None None
       (Some (Repository.mk "core"))] [] 7 ltac:(right; lia)))).
Defined.

(** C10.  A commit without a [repository] tag is filtered under the name
    ['unknown']: it is kept when the selection is empty, and under a non-empty
    selection it is kept exactly when ['unknown'] is selected. *)
Theorem applyFilters_untagged_commit (commits : list Commit)
    (repos : list string) (detail : Z) (c : Commit) :
  repository c = None →
  CommitFilter.repoName c = "unknown"
  ∧ (repos = [] → CommitFilter.keeps repos c = true)
  ∧ (repos ≠ [] →
       CommitFilter.keeps repos c = bool_decide ("unknown" ∈ repos))
  ∧ (c ∈ (CommitFilter.applyFilters commits repos detail).1
       ↔ c ∈ commits ∧ (repos = [] ∨ "unknown" ∈ repos)).
Proof.
  intros Hr. pose proof (repoName_untagged c Hr) as Hn.
  split; [exact Hn|]. split; [by intros ->|]. split.
  - intros Hne. destruct repos as [|r repos]; [done|].
    by rewrite keeps_cons, Hn.
  - unfold CommitFilter.applyFilters; simpl.
    rewrite list_elem_of_In, filter_In, <- list_elem_of_In.
    destruct repos as [|r repos].
    + rewrite keeps_nil. tauto.
    + rewrite keeps_cons, Hn, bool_decide_eq_true. intuition discriminate.
Qed.

Lemma applyFilters_untagged_commit_witness :
  repository
    (mkCommit "a1" (GitCommit.mk (Author.mk "ann" "a@x" 0) "m") "u" None None
       None) = None ∧
  CommitFilter.keeps ["core"; "unknown"]
    (mkCommit "a1" (GitCommit.mk (Author.mk "ann" "a@x" 0) "m") "u" None None
       None) = bool_decide ("unknown" ∈ ["core"; "unknown"]).
Proof.
  split; [reflexivity|].
  exact (proj1 (proj2 (proj2 (applyFilters_untagged_commit [] ["core"; "unknown"]
    3 (mkCommit "a1" (GitCommit.mk (Author.mk "ann" "a@x" 0) "m") "u" None None
         None) eq_refl))) ltac:(discriminate)).
Defined.

(** ** Pagination *)

Section FetchFacts.
Import Index Observations.
Context (api : Api) (username selectedRepo : string) (dateRange : DateRange).

Local Abbreviation request := (pageRequest username selectedRepo dateRange).
Local Abbreviation requests := (pageRequests username selectedRepo dateRange).
Local Abbreviation loop fuel :=
  (fetchLoop fuel api username selectedRepo dateRange).
Local Abbreviation answersFull :=
  (Observations.answersFull api username selectedRepo dateRange).

Lemma answersFull_cons page p fullPages :
  answersFull page (p :: fullPages) →
  api (request page) = Ok p ∧ (perPage ≤ length p)%nat
  ∧ answersFull (page + 1) fullPages.
Proof.
  intros Hall. split_and!.
  - destruct (Hall 0%nat p eq_refl) as [H _]. by rewrite Z.add_0_r in H.
  - by destruct (Hall 0%nat p eq_refl).
  - intros i q Hq. destruct (Hall (S i) q Hq) as [H1 H2]. split; [|done].
    by replace (page + 1 + Z.of_nat i) with (page + Z.of_nat (S i)) by lia.
Qed.

Lemma pageRequests_S page n :
  requests page (S n) = request page :: requests (page + 1) n.
Proof.
  unfold pageRequests. simpl. rewrite Z.add_0_r. f_equal.
  rewrite <- fmap_S_seq, <- list_fmap_compose. apply list_fmap_ext.
  intros _ k _. simpl. f_equal. lia.
Qed.

(** The loop runs through the full pages and stops at the first short one. *)
Lemma fetchLoop_completes fullPages lastPage :
  ∀ (fuel : nat) (allCommits : list Commit) (page : Z) (issued : list Request),
  answersFull page fullPages →
  api (request (page + Z.of_nat (length fullPages))) = Ok lastPage →
  (length lastPage < perPage)%nat →
  (length fullPages < fuel)%nat →
  loop fuel allCommits page issued
  = Some (Completed
            (allCommits ++ (withRepo selectedRepo <$> concat fullPages ++ lastPage)),
          issued ++ requests page (S (length fullPages))).
Proof.
  induction fullPages as [|p fullPages IH];
    intros fuel allCommits page issued Hfull Hlast Hshort Hfuel.
  - destruct fuel as [|fuel]; [simpl in Hfuel; lia|].
    simpl in Hlast. rewrite Z.add_0_r in Hlast.
    simpl. rewrite Hlast.
    assert (requests page 1 = [request page]) as ->.
    { unfold pageRequests. simpl. by rewrite Z.add_0_r. }
    destruct (decide (length lastPage = 0%nat)) as [Hz|Hz].
    + apply nil_length_inv in Hz. subst lastPage. simpl.
      by rewrite app_nil_r.
    + by rewrite decide_True by done.
  - destruct fuel as [|fuel]; [simpl in Hfuel; lia|].
    apply answersFull_cons in Hfull as (Hp & Hlen & Hfull).
    simpl. rewrite Hp.
    rewrite decide_False by (unfold perPage in Hlen; lia).
    rewrite decide_False by lia.
    rewrite (IH fuel); [| done | | done | simpl in Hfuel; lia ].
    + rewrite (pageRequests_S page (S (length fullPages))). simpl concat.
      by rewrite !fmap_app, <- !(assoc_L (++)).
    + by replace (page + 1 + Z.of_nat (length fullPages))
        with (page + Z.of_nat (length (p :: fullPages))) by (simpl length; lia).
Qed.

(** The loop runs through the full pages and throws at the first request
    that does not succeed. *)
Lemma fetchLoop_throws fullPages :
  ∀ (fuel : nat) (allCommits : list Commit) (page : Z) (issued : list Request),
  answersFull page fullPages →
  (∀ p, api (request (page + Z.of_nat (length fullPages))) ≠ Ok p) →
  (length fullPages < fuel)%nat →
  loop fuel allCommits page issued
  = Some (Thrown, issued ++ requests page (S (length fullPages))).
Proof.
  induction fullPages as [|p fullPages IH];
    intros fuel allCommits page issued Hfull Hlast Hfuel.
  - destruct fuel as [|fuel]; [simpl in Hfuel; lia|].
    simpl in Hlast. rewrite Z.add_0_r in Hlast. simpl length.
    assert (requests page 1 = [request page]) as ->.
    { unfold pageRequests. simpl. by rewrite Z.add_0_r. }
    simpl. destruct (api (request page)) as [q| |]; [by destruct (Hlast q)|done..].
  - destruct fuel as [|fuel]; [simpl in Hfuel; lia|].
    apply answersFull_cons in Hfull as (Hp & Hlen & Hfull).
    simpl. rewrite Hp.
    rewrite decide_False by (unfold perPage in Hlen; lia).
    rewrite decide_False by lia.
    rewrite (IH fuel); [| done | | simpl in Hfuel; lia ].
    + rewrite (pageRequests_S page (S (length fullPages))).
      by rewrite <- !(assoc_L (++)).
    + intros q Hq. apply (Hlast q). rewrite <- Hq.
      by replace (page + 1 + Z.of_nat (length fullPages))
        with (page + Z.of_nat (length (p :: fullPages))) by (simpl length; lia).
Qed.

(** Whatever the loop returns, every request it issued but the last one was
    answered with a full page, and the last one decides the outcome. *)
Lemma fetchLoop_inv fuel :
  ∀ (allCommits : list Commit) (page : Z) (issued : list Request)
    (out : Outcome) (issued' : list Request),
  loop fuel allCommits page issued = Some (out, issued') →
  ∃ (answered : list Request) (last : Request),
    issued' = issued ++ answered ++ [last]
    ∧ (∀ q, q ∈ answered → ∃ p, api q = Ok p)
    ∧ match out with
      | Thrown => ∀ p, api last ≠ Ok p
      | Completed _ => ∃ p, api last = Ok p
      end.
Proof.
  induction fuel as [|fuel IH]; intros allCommits page issued out issued' Hrun;
    [done|].
  simpl in Hrun.
  destruct (api (request page)) as [p| |] eqn:Hp.
  - destruct (decide (length p = 0%nat)).
    { simplify_eq. exists [], (request page). split_and!; [done|by inversion 1|eauto]. }
    destruct (decide (length p < perPage)%nat).
    { simplify_eq. exists [], (request page). split_and!; [done|by inversion 1|eauto]. }
    apply IH in Hrun as (answered & last & -> & Hans & Hout).
    exists (request page :: answered), last. split_and!.
    + by rewrite <- !(assoc_L (++)).
    + intros q [->|Hq]%elem_of_cons; eauto.
    + done.
  - simplify_eq. exists [], (request page). split_and!; [done|by inversion 1|].
    intros p. by rewrite Hp.
  - simplify_eq. exists [], (request page). split_and!; [done|by inversion 1|].
    intros p. by rewrite Hp.
Qed.

End FetchFacts.

(** C5.  With page size 100, [fetchCommits] requests page after page, appends
    each page (tagged with the repository) in order, and stops exactly at the
    first page that is empty or shorter than the page size: when the API
    answers pages 1..n with full pages and page n+1 with a short one, it
    issues exactly the n+1 requests for pages 1..n+1 and stores all their
    commits.  For answers of sizes 100, 100 and 37 that is 3 requests and 237
    commits; for a first answer of size 0 it is 1 request and no commit. *)
Theorem fetchCommits_pagination (api : Index.Api)
    (username selectedRepo : string) (dateRange : DateRange)
    (st : Index.State) :
  selectedRepo ≠ "" →
  Index.perPage = 100%nat
  ∧ (∀ (fullPages : list (list Commit)) (lastPage : list Commit) (fuel : nat),
       Observations.answersFull api username selectedRepo dateRange 1 fullPages →
       api (Index.pageRequest username selectedRepo dateRange
              (1 + Z.of_nat (length fullPages))) = Index.Ok lastPage →
       (length lastPage < Index.perPage)%nat →
       (length fullPages < fuel)%nat →
       ∃ st' : Index.State,
         Index.fetchCommits fuel api username selectedRepo (Some dateRange) st
         = Some (st', Observations.pageRequests username selectedRepo dateRange 1
                        (S (length fullPages)))
         ∧ Index.commits st'
           = (Index.withRepo selectedRepo <$> concat fullPages ++ lastPage))
  ∧ (∀ (p1 p2 p3 : list Commit) (fuel : nat),
       api (Index.pageRequest username selectedRepo dateRange 1) = Index.Ok p1 →
       api (Index.pageRequest username selectedRepo dateRange 2) = Index.Ok p2 →
       api (Index.pageRequest username selectedRepo dateRange 3) = Index.Ok p3 →
       length p1 = 100%nat → length p2 = 100%nat → length p3 = 37%nat →
       (3 ≤ fuel)%nat →
       ∃ (st' : Index.State) (issued : list Index.Request),
         Index.fetchCommits fuel api username selectedRepo (Some dateRange) st
         = Some (st', issued)
         ∧ issued = [Index.pageRequest username selectedRepo dateRange 1;
                     Index.pageRequest username selectedRepo dateRange 2;
                     Index.pageRequest username selectedRepo dateRange 3]
         ∧ Index.commits st' = (Index.withRepo selectedRepo <$> p1 ++ p2 ++ p3)
         ∧ length (Index.commits st') = 237%nat)
  ∧ (∀ fuel : nat,
       api (Index.pageRequest username selectedRepo dateRange 1) = Index.Ok [] →
       (1 ≤ fuel)%nat →
       ∃ st' : Index.State,
         Index.fetchCommits fuel api username selectedRepo (Some dateRange) st
         = Some (st', [Index.pageRequest username selectedRepo dateRange 1])
         ∧ Index.commits st' = []).
Proof.
  intros Hrepo.
  assert (∀ (fullPages : list (list Commit)) (lastPage : list Commit) (fuel : nat),
       Observations.answersFull api username selectedRepo dateRange 1 fullPages →
       api (Index.pageRequest username selectedRepo dateRange
              (1 + Z.of_nat (length fullPages))) = Index.Ok lastPage →
       (length lastPage < Index.perPage)%nat →
       (length fullPages < fuel)%nat →
       ∃ st' : Index.State,
         Index.fetchCommits fuel api username selectedRepo (Some dateRange) st
         = Some (st', Observations.pageRequests username selectedRepo dateRange 1
                        (S (length fullPages)))
         ∧ Index.commits st'
           = (Index.withRepo selectedRepo <$> concat fullPages ++ lastPage))
    as Hgeneral.
  { intros fullPages lastPage fuel Hfull Hlast Hshort Hfuel.
    unfold Index.fetchCommits. rewrite decide_False by done.
    rewrite (fetchLoop_completes api username selectedRepo dateRange
               fullPages lastPage fuel [] 1 [] Hfull Hlast Hshort Hfuel).
    eexists. split; reflexivity. }
  split; [reflexivity|]. split; [exact Hgeneral|]. split.
  - intros p1 p2 p3 fuel H1 H2 H3 L1 L2 L3 Hfuel.
    destruct (Hgeneral [p1; p2] p3 fuel) as (st' & Hrun & Hcommits).
    + intros [|[|i]] p Hp; simplify_eq/=.
      * split; [done|]. unfold Index.perPage. lia.
      * split; [done|]. unfold Index.perPage. lia.
    + exact H3.
    + unfold Index.perPage. lia.
    + simpl. lia.
    + exists st', (Observations.pageRequests username selectedRepo dateRange 1 3).
      split; [exact Hrun|]. split; [reflexivity|].
      simpl in Hcommits. rewrite app_nil_r in Hcommits.
      rewrite <- (assoc_L (++)) in Hcommits.
      split; [exact Hcommits|].
      rewrite Hcommits, length_fmap, !length_app. lia.
  - intros fuel H1 Hfuel.
    destruct (Hgeneral [] [] fuel) as (st' & Hrun & Hcommits).
    + by intros i p Hp.
    + exact H1.
    + unfold Index.perPage. simpl. lia.
    + simpl. lia.
    + exists st'. split; [exact Hrun|exact Hcommits].
Qed.

Lemma fetchCommits_pagination_witness :
  "core" ≠ "" ∧
  ∃ (st' : Index.State) (issued : list Index.Request),
    Index.fetchCommits 3 Sample.threePages "octocat" "core"
      (Some Sample.january) Sample.idle = Some (st', issued)
    ∧ length issued = 3%nat
    ∧ length (Index.commits st') = 237%nat.
Proof.
  split; [discriminate|].
  destruct (fetchCommits_pagination Sample.threePages "octocat" "core"
              Sample.january Sample.idle ltac:(discriminate))
    as (_ & _ & Hsizes & _).
  destruct (Hsizes (replicate 100 (Sample.commitBy "ann" "a1"))
              (replicate 100 (Sample.commitBy "bob" "b2"))
              (replicate 37 (Sample.commitBy "cy" "c3")) 3%nat
              eq_refl eq_refl eq_refl eq_refl eq_refl eq_refl (le_n 3))
    as (st' & issued & Hrun & Hissued & _ & Hlen).
  exists st', issued. split; [exact Hrun|]. split; [by rewrite Hissued|exact Hlen].
Defined.

(** C6.  A run of [fetchCommits] in which some page request does not succeed
    stops at that request: it is the last request issued and every request
    before it was answered, exactly one notification (the destructive
    ['Error'] one) is added, and the stored commit list is empty, whatever had
    been accumulated (the filtered list keeps the value it had before the
    run).  Such a run does return: when pages 1..n are full and
    the request for page n+1 fails, [fetchCommits] ends with exactly the n+1
    requests for pages 1..n+1. *)
Theorem fetchCommits_failure (api : Index.Api)
    (username selectedRepo : string) (dateRange : DateRange)
    (st : Index.State) :
  selectedRepo ≠ "" →
  (∀ (fuel : nat) (st' : Index.State) (issued : list Index.Request)
     (r : Index.Request),
     Index.fetchCommits fuel api username selectedRepo (Some dateRange) st
       = Some (st', issued) →
     r ∈ issued → (∀ p, api r ≠ Index.Ok p) →
     (∃ answered : list Index.Request,
        issued = answered ++ [r] ∧ ∀ q, q ∈ answered → ∃ p, api q = Index.Ok p)
     ∧ Index.commits st' = []
     ∧ Index.filteredCommits st' = Index.filteredCommits st
     ∧ Index.toasts st' = Index.toasts st ++ [Index.fetchFailed]
     ∧ Index.toast_destructive Index.fetchFailed = true
     ∧ Index.loading st' = false)
  ∧ (∀ (fullPages : list (list Commit)) (fuel : nat),
       Observations.answersFull api username selectedRepo dateRange 1 fullPages →
       (∀ p, api (Index.pageRequest username selectedRepo dateRange
                    (1 + Z.of_nat (length fullPages))) ≠ Index.Ok p) →
       (length fullPages < fuel)%nat →
       ∃ st' : Index.State,
         Index.fetchCommits fuel api username selectedRepo (Some dateRange) st
         = Some (st', Observations.pageRequests username selectedRepo dateRange 1
                        (S (length fullPages)))
         ∧ Index.commits st' = []
         ∧ Index.filteredCommits st' = Index.filteredCommits st
         ∧ Index.toasts st' = Index.toasts st ++ [Index.fetchFailed]).
Proof.
  intros Hrepo. split.
  - intros fuel st' issued r Hrun Hr Hfail.
    unfold Index.fetchCommits in Hrun. rewrite decide_False in Hrun by done.
    destruct (Index.fetchLoop fuel api username selectedRepo dateRange [] 1 [])
      as [[out issued']|] eqn:Hloop; [|done].
    apply fetchLoop_inv in Hloop as (answered & last & Hissued & Hans & Hout).
    simpl in Hissued.
    assert (issued = issued') as <- by (destruct out; by simplify_eq).
    subst issued.
    assert (r = last) as ->.
    { apply elem_of_app in Hr as [Hr|Hr%list_elem_of_singleton]; [|done].
      destruct (Hans r Hr) as [p Hp]. by destruct (Hfail p). }
    destruct out as [allCommits|].
    { destruct Hout as [p Hp]. by destruct (Hfail p). }
    simplify_eq. simpl. split_and!; try done. by exists answered.
  - intros fullPages fuel Hfull Hlast Hfuel.
    unfold Index.fetchCommits. rewrite decide_False by done.
    rewrite (fetchLoop_throws api username selectedRepo dateRange
               fullPages fuel [] 1 [] Hfull Hlast Hfuel).
    eexists. split_and!; reflexivity.
Qed.

Lemma fetchCommits_failure_witness :
  "core" ≠ "" ∧
  ∃ st' : Index.State,
    Index.fetchCommits 2 Sample.failsOnSecond "octocat" "core"
      (Some Sample.january) Sample.idle
    = Some (st', Observations.pageRequests "octocat" "core" Sample.january 1 2)
    ∧ Index.commits st' = []
    ∧ Index.filteredCommits st' = []
    ∧ Index.toasts st' = [Index.fetchFailed].
Proof.
  split; [discriminate|].
  destruct (fetchCommits_failure Sample.failsOnSecond "octocat" "core"
              Sample.january Sample.idle ltac:(discriminate)) as [_ Hfails].
  apply (Hfails [replicate 100 (Sample.commitBy "ann" "a1")] 2%nat).
  - intros [|i] p Hp; [|done]. injection Hp as <-. split; [reflexivity|].
    vm_compute. lia.
  - intros p. discriminate.
  - simpl. lia.
Defined.

(** ** Detail levels *)

Section FormatFacts.
Import EnhancedCommitExporter Observations.
Context `{Env}.

Lemma occursIn_refl (s : string) : occursIn s s.
Proof. exists "", "". by rewrite append_nil_r. Qed.

Lemma occursIn_nil (t : string) : occursIn "" t.
Proof. by exists "", t. Qed.

Lemma occursIn_app_l (s t u : string) : occursIn s t → occursIn s (u +:+ t).
Proof.
  intros (a & b & ->). exists (u +:+ a), b. by rewrite append_assoc.
Qed.

Lemma occursIn_app_r (s t u : string) : occursIn s t → occursIn s (t +:+ u).
Proof.
  intros (a & b & ->). exists a, (b +:+ u). by rewrite !append_assoc.
Qed.

(** [s.substring(0, n)] is a prefix of [s]. *)
Lemma substring0_prefix (n : nat) (s : string) :
  ∃ rest, s = JS.substring0 n s +:+ rest.
Proof.
  unfold JS.substring0. revert n.
  induction s as [|a s IH]; intros [|n]; simpl.
  - by exists "".
  - by exists "".
  - by exists (String a s).
  - destruct (IH n) as [rest Hrest]. exists rest.
    by rewrite append_cons, <- Hrest.
Qed.

Lemma substring0_occursIn (n : nat) (s : string) :
  occursIn (JS.substring0 n s) s.
Proof. destruct (substring0_prefix n s) as [rest Hrest]. by exists "", rest. Qed.

(** A field that is not a date occurs in the text of every hole that
    carries it. *)
Lemma carries_occursIn (c : Commit) (i : nat) (g f : Expr) :
  carries g f = true → isDate f = false →
  occursIn (evalExpr c i f) (evalExpr c i g).
Proof.
  intros Hc Hd.
  destruct f; try discriminate Hd;
    destruct g; simpl in Hc; try discriminate Hc;
    try apply occursIn_refl.
  apply substring0_occursIn.
Qed.

Lemma renderSegs_occursIn (c : Commit) (i : nat) (e : Expr) (segs : list Seg) :
  Hole e ∈ segs → occursIn (evalExpr c i e) (renderSegs c i segs).
Proof.
  induction segs as [|s segs IH]; [by inversion 1|].
  intros [<-|Hin]%elem_of_cons; simpl.
  - apply occursIn_app_r, occursIn_refl.
  - by apply occursIn_app_l, IH.
Qed.

(** The text of a field occurs in the rendering of every template with a
    piece that carries the field. *)
Lemma render_occursIn (c : Commit) (i : nat) (f : Expr) (t : list Piece) :
  existsb (pieceCarries f) t = true → isDate f = false →
  occursIn (evalExpr c i f) (render c i t).
Proof.
  intros Hex Hd. induction t as [|p t IH]; [done|].
  simpl in Hex. apply orb_true_iff in Hex as [Hp|Ht]; simpl.
  - apply occursIn_app_r. destruct p as [[s|g]|segs]; simpl in Hp; [done| |].
    + by apply carries_occursIn.
    + apply andb_true_iff in Hp as [Hf%bool_decide_eq_true Hin%bool_decide_eq_true].
      subst f. simpl. destruct (decide (body c = "")) as [->|_].
      * apply occursIn_nil.
      * by apply (renderSegs_occursIn c i EBody).
  - by apply occursIn_app_l, IH.
Qed.

Lemma template_out_of_range (level : Z) :
  level < 1 ∨ 5 < level → template level = template 3.
Proof.
  intros Hl. unfold template.
  destruct level as [|p|p]; [reflexivity| |reflexivity].
  destruct p as [[[?|?|]|[?|?|]|]|[[?|?|]|[?|?|]|]|]; try reflexivity; lia.
Qed.

(** The text of a hole of a template occurs in its rendering. *)
Lemma render_hole (c : Commit) (i : nat) (e : Expr) (t : list Piece) :
  Plain (Hole e) ∈ t → occursIn (evalExpr c i e) (render c i t).
Proof.
  induction t as [|p t IH]; [by inversion 1|].
  intros [<-|Hin]%elem_of_cons; simpl.
  - apply occursIn_app_r, occursIn_refl.
  - by apply occursIn_app_l, IH.
Qed.

(** The texts that the reader looks for are the texts of the holes. *)
Lemma fieldText_evalExpr (c : Commit) (i : nat) (f : Expr) :
  fieldText c i f = evalExpr c i f.
Proof.
  destruct f; try reflexivity; simpl.
  - by destruct (repository c).
  - destruct (stats c) as [[[a|] [d|]]|]; simpl; try done;
      repeat case_decide; by subst.
Qed.

End FormatFacts.

Section RendersFacts.
Import EnhancedCommitExporter Observations.

Lemma occursInb_complete (s t : string) :
  occursIn s t → occursInb s t = true.
Proof.
  intros (before & after & ->).
  induction before as [|a before IH].
  - rewrite append_nil_l.
    assert (∀ t, String.prefix s t = true → occursInb s t = true) as Hpre.
    { intros t Ht. destruct t; cbn [occursInb]; by rewrite Ht. }
    apply Hpre, prefix_append.
  - rewrite append_cons. cbn [occursInb]. rewrite IH. apply orb_true_r.
Qed.

(** A field with a piece in the template of a level is rendered at that
    level. *)
Lemma shownBy_renders (level : Z) (f : Expr) :
  shownBy (template level) f = true → renders level f.
Proof.
  intros Hs E c i. rewrite fieldText_evalExpr.
  unfold formatCommitByDetailLevel, shownBy in *.
  destruct (isDate f) eqn:Hd.
  - apply bool_decide_eq_true in Hs. by apply render_hole.
  - by apply render_occursIn.
Qed.

(** A field that is rendered shows in the block of the probe. *)
Lemma renders_shows (level : Z) (f : Expr) :
  renders level f → shows level f = true.
Proof. intros Hr. apply occursInb_complete, Hr. Qed.

Lemma levels_1_to_5 (l : Z) :
  1 ≤ l ≤ 5 → l = 1 ∨ l = 2 ∨ l = 3 ∨ l = 4 ∨ l = 5.
Proof. lia. Qed.

(** Apart from dates, the block of the probe shows exactly the fields that
    have a piece in the template. *)
Lemma shows_shownBy (level : Z) (f : Expr) :
  1 ≤ level ≤ 5 → isDate f = false →
  shows level f = shownBy (template level) f.
Proof.
  intros Hl%levels_1_to_5 Hd.
  destruct Hl as [->|[->|[->|[->| ->]]]];
    destruct f; try discriminate Hd; vm_compute; reflexivity.
Qed.

(** Imports that agree on the holes of a template give the same block. *)
Lemma renderSegs_env_ext (E1 E2 : Env) (c : Commit) (i : nat)
    (segs : list Seg) :
  Forall (λ e, evalExpr (H := E1) c i e = evalExpr (H := E2) c i e)
    (segHoles segs) →
  renderSegs (H := E1) c i segs = renderSegs (H := E2) c i segs.
Proof.
  induction segs as [|[s|e] segs IH]; intros Hall; simpl; [done| |].
  - f_equal. by apply IH.
  - unfold segHoles in Hall. simpl in Hall.
    apply Forall_cons in Hall as [He Hall]. rewrite He. f_equal. by apply IH.
Qed.

Lemma render_env_ext (E1 E2 : Env) (c : Commit) (i : nat) (t : list Piece) :
  Forall (λ e, evalExpr (H := E1) c i e = evalExpr (H := E2) c i e)
    (holes t) →
  render (H := E1) c i t = render (H := E2) c i t.
Proof.
  induction t as [|p t IH]; intros Hall; simpl; [done|].
  unfold holes in Hall. rewrite bind_cons in Hall.
  apply Forall_app in Hall as [Hp Hall]. rewrite (IH Hall). f_equal.
  destruct p as [s|segs]; simpl.
  - by apply (renderSegs_env_ext E1 E2 c i [s]) in Hp; simpl in Hp;
      rewrite !append_nil_r in Hp.
  - destruct (decide (body c = "")); [done|]. by apply renderSegs_env_ext.
Qed.

Lemma evalExpr_onlyPattern (p : string) (c : Commit) (i : nat) (e : Expr) :
  e ≠ EDate p →
  evalExpr (H := onlyPattern p) c i e = evalExpr (H := silent) c i e.
Proof.
  intros He. destruct e; try reflexivity. simpl.
  rewrite decide_False; [done|]. by intros ->.
Qed.

(** A date that is rendered at a level is the date of a hole of the
    template of that level. *)
Lemma renders_date (level : Z) (p : string) :
  1 ≤ level ≤ 5 → renders level (EDate p) →
  p ∈ datePatterns (template level).
Proof.
  intros Hl Hr.
  destruct (decide (p ∈ datePatterns (template level))) as [|Hnot]; [done|].
  exfalso. specialize (Hr (onlyPattern p) probe 7%nat).
  assert (fieldText (H := onlyPattern p) probe 7 (EDate p) = "@@") as Htext.
  { simpl. by rewrite decide_True. }
  rewrite Htext in Hr.
  assert (formatCommitByDetailLevel (H := onlyPattern p) probe 7 level
          = formatCommitByDetailLevel (H := silent) probe 7 level) as Hblock.
  { apply render_env_ext, Forall_forall. intros e He.
    apply evalExpr_onlyPattern. intros ->. apply Hnot.
    unfold datePatterns. apply list_elem_of_omap. by exists (EDate p). }
  rewrite Hblock in Hr. apply occursInb_complete in Hr.
  apply levels_1_to_5 in Hl.
  destruct Hl as [->|[->|[->|[->| ->]]]]; vm_compute in Hr; discriminate Hr.
Qed.

End RendersFacts.



(** ** Time span *)

Section TimeSpanFacts.
Import EnhancedCommitExporter.

(** The span is the ceiling of the difference in days: it is the least
    number of whole days that covers the range. *)
Lemma timeSpan_ceiling (p : Props) :
  let d := to (dateRange p) - from (dateRange p) in
  msPerDay * ((timeSpan p).1 - 1) < d ≤ msPerDay * (timeSpan p).1.
Proof.
  unfold timeSpan, JS.ceil_div, msPerDay. simpl.
  set (d := to (dateRange p) - from (dateRange p)).
  pose proof (Z.div_mod (- d) 86400000 ltac:(lia)) as Hdm.
  pose proof (Z.mod_pos_bound (- d) 86400000 ltac:(lia)) as Hb.
  change (1000 * 60 * 60 * 24) with 86400000. lia.
Qed.

(** No floor: a range of one instant has a span of zero days. *)
Lemma timeSpan_same_instant (p : Props) :
  from (dateRange p) = to (dateRange p) → timeSpan p = (0, false).
Proof.
  intros Heq. unfold timeSpan. rewrite Heq, Z.sub_diag. reflexivity.
Qed.

Lemma averageCommitsPerDay_same_instant (p : Props) :
  from (dateRange p) = to (dateRange p) →
  averageCommitsPerDay p
  = if decide (filteredCommits p = []) then JS.NaN else JS.Infinity.
Proof.
  intros Heq. unfold averageCommitsPerDay.
  rewrite (timeSpan_same_instant p Heq). unfold JS.divide. simpl.
  destruct (filteredCommits p) as [|c cs]; [done|].
  rewrite decide_False by (simpl; lia). by rewrite decide_False.
Qed.

End TimeSpanFacts.

(** C1, amended.  For a range with [from <= to] of less than 2^53
    milliseconds (the differences that the numbers of the code hold
    exactly) the span of the report is
    the ceiling of the difference in days, with no floor at one day: it is 0
    exactly when from and to are the same instant, and for a range of
    positive length it is at least 1 and the average, in both exporters, is
    the finite quotient of the number of commits by the span.  For 2024-01-01
    to 2024-01-03 the span is 2 days. *)
Theorem timeSpan_is_ceiling_of_days (p : EnhancedCommitExporter.Props) :
  from (EnhancedCommitExporter.dateRange p)
    ≤ to (EnhancedCommitExporter.dateRange p) →
  to (EnhancedCommitExporter.dateRange p)
    - from (EnhancedCommitExporter.dateRange p) < 2 ^ 53 →
  EnhancedCommitExporter.msPerDay
      * ((EnhancedCommitExporter.timeSpan p).1 - 1)
    < to (EnhancedCommitExporter.dateRange p)
      - from (EnhancedCommitExporter.dateRange p)
    ≤ EnhancedCommitExporter.msPerDay * (EnhancedCommitExporter.timeSpan p).1
  ∧ ((EnhancedCommitExporter.timeSpan p).1 = 0
     ↔ from (EnhancedCommitExporter.dateRange p)
       = to (EnhancedCommitExporter.dateRange p))
  ∧ (from (EnhancedCommitExporter.dateRange p)
       < to (EnhancedCommitExporter.dateRange p) →
     1 ≤ (EnhancedCommitExporter.timeSpan p).1
     ∧ EnhancedCommitExporter.averageCommitsPerDay p
       = JS.Ratio
           (Z.of_nat (length (EnhancedCommitExporter.filteredCommits p)))
           (EnhancedCommitExporter.timeSpan p).1
     ∧ CommitExporter.averageCommitsPerDay
         (EnhancedCommitExporter.filteredCommits p)
         (EnhancedCommitExporter.dateRange p)
       = JS.Ratio
           (Z.of_nat (length (EnhancedCommitExporter.filteredCommits p)))
           (EnhancedCommitExporter.timeSpan p).1)
  ∧ (from (EnhancedCommitExporter.dateRange p) = 1704067200000 →
     to (EnhancedCommitExporter.dateRange p) = 1704240000000 →
     (EnhancedCommitExporter.timeSpan p).1 = 2).
Proof.
  intros Hle _. pose proof (timeSpan_ceiling p) as Hceil. cbv zeta in Hceil.
  unfold EnhancedCommitExporter.msPerDay in *.
  change (1000 * 60 * 60 * 24) with 86400000 in *.
  split; [exact Hceil|]. split; [|split].
  - lia.
  - intros Hlt. split; [lia|].
    assert (EnhancedCommitExporter.averageCommitsPerDay p
            = JS.Ratio
                (Z.of_nat (length (EnhancedCommitExporter.filteredCommits p)))
                (EnhancedCommitExporter.timeSpan p).1) as Havg.
    { unfold EnhancedCommitExporter.averageCommitsPerDay, JS.divide.
      by rewrite decide_False by lia. }
    split; [exact Havg|]. rewrite <- Havg. reflexivity.
  - intros Hfrom Hto. rewrite Hfrom, Hto in Hceil. lia.
Qed.

Lemma timeSpan_is_ceiling_of_days_witness :
  from (EnhancedCommitExporter.dateRange Sample.januaryProps)
    ≤ to (EnhancedCommitExporter.dateRange Sample.januaryProps)
  ∧ to (EnhancedCommitExporter.dateRange Sample.januaryProps)
      - from (EnhancedCommitExporter.dateRange Sample.januaryProps) < 2 ^ 53
  ∧ (EnhancedCommitExporter.timeSpan Sample.januaryProps).1 = 2.
Proof.
  assert (from (EnhancedCommitExporter.dateRange Sample.januaryProps)
            ≤ to (EnhancedCommitExporter.dateRange Sample.januaryProps)) as Hle.
  { vm_compute. discriminate. }
  assert (to (EnhancedCommitExporter.dateRange Sample.januaryProps)
            - from (EnhancedCommitExporter.dateRange Sample.januaryProps)
          < 2 ^ 53) as Hexact.
  { vm_compute. reflexivity. }
  split; [exact Hle|]. split; [exact Hexact|].
  exact (proj2 (proj2 (proj2
           (timeSpan_is_ceiling_of_days Sample.januaryProps Hle Hexact)))
           eq_refl eq_refl).
Defined.

(** C1, as stated, fails: the span is not floored at one day.  For the range
    that the date picker produces when a single day is picked (from and to
    both 2024-01-01) the span is 0 days, not 1, and the average of three
    commits is [Infinity], in both exporters; this is what the summary
    prints. *)
Lemma timeSpan_single_day_not_floored :
  DateRangePicker.handleDateSelect (Some 1704067200000) None
    = Some Sample.singleDay
  ∧ (EnhancedCommitExporter.timeSpan Sample.singleDayProps).1 = 0
  ∧ (EnhancedCommitExporter.timeSpan Sample.singleDayProps).1 ≠ 1
  ∧ EnhancedCommitExporter.averageCommitsPerDay Sample.singleDayProps
    = JS.Infinity
  ∧ Observations.occursIn
      ("- **Time span:** 0 days" +:+ JS.LF +:+
       "- **Average commits/day:** Infinity" +:+ JS.LF)
      (EnhancedCommitExporter.summary (H := Sample.env) Sample.singleDayProps)
  ∧ CommitExporter.averageCommitsPerDay Sample.threeCommits Sample.singleDay
    = JS.Infinity.
Proof.
  split_and!; try reflexivity; [discriminate|].
  exists (JS.LF +:+ "## Summary" +:+ JS.LF +:+ JS.LF +:+
          "- **Commits analyzed:** 3" +:+ JS.LF +:+
          "- **Repositories:** All" +:+ JS.LF).
  eexists. vm_compute. reflexivity.
Qed.

(** ** Author ranking *)

Section AuthorFacts.
Import EnhancedCommitExporter Observations.

Lemma firstOccurrences_snoc (names : list string) (a : string) :
  firstOccurrences (names ++ [a])
  = if decide (a ∈ firstOccurrences names) then firstOccurrences names
    else firstOccurrences names ++ [a].
Proof. unfold firstOccurrences. by rewrite foldl_snoc. Qed.

Lemma elem_of_firstOccurrences (names : list string) (a : string) :
  a ∈ firstOccurrences names ↔ a ∈ names.
Proof.
  induction names as [|b names IH] using rev_ind; [done|].
  rewrite firstOccurrences_snoc, elem_of_app, list_elem_of_singleton.
  destruct (decide (b ∈ firstOccurrences names)) as [Hb|Hb].
  - rewrite IH. split; [tauto|]. intros [?| ->]; [done|]. by apply IH.
  - rewrite elem_of_app, list_elem_of_singleton, IH. tauto.
Qed.

Lemma NoDup_firstOccurrences (names : list string) :
  NoDup (firstOccurrences names).
Proof.
  induction names as [|b names IH] using rev_ind; [constructor|].
  rewrite firstOccurrences_snoc.
  destruct (decide (b ∈ firstOccurrences names)) as [Hb|Hb]; [done|].
  apply NoDup_app. split_and!; [done| |apply NoDup_singleton].
  intros x Hx ->%list_elem_of_singleton. done.
Qed.

Lemma encounteredBefore_snoc (names : list string) (a b c : string) :
  encounteredBefore names a b → encounteredBefore (names ++ [c]) a b.
Proof.
  intros (Hne & l1 & l2 & -> & Hb). split; [done|].
  exists l1, (l2 ++ [c]). by rewrite <- (assoc_L (++)).
Qed.

Lemma encounteredBefore_fresh (names : list string) (a b : string) :
  a ∈ names → b ∉ names → encounteredBefore (names ++ [b]) a b.
Proof.
  intros Ha Hb. split; [by intros ->|].
  apply list_elem_of_split in Ha as (l1 & l2 & ->).
  exists l1, (l2 ++ [b]). rewrite <- (assoc_L (++)). split; [done|].
  intros Hin. apply Hb, elem_of_app. by left.
Qed.

Lemma StronglySorted_weaken {A} (R R' : relation A) (l : list A) :
  (∀ x y, R x y → R' x y) → StronglySorted R l → StronglySorted R' l.
Proof.
  intros HR. induction 1 as [|x l Hl IH Hx]; constructor; [done|].
  eapply Forall_impl; [exact Hx|]. intros y. apply HR.
Qed.

(** [firstOccurrences] lists the names in the order of first encounter. *)
Lemma firstOccurrences_sorted (names : list string) :
  StronglySorted (encounteredBefore names) (firstOccurrences names).
Proof.
  induction names as [|b names IH] using rev_ind; [constructor|].
  rewrite firstOccurrences_snoc.
  assert (StronglySorted (encounteredBefore (names ++ [b]))
            (firstOccurrences names)) as Hold.
  { eapply StronglySorted_weaken; [|exact IH].
    intros x y. apply encounteredBefore_snoc. }
  destruct (decide (b ∈ firstOccurrences names)) as [Hb|Hb]; [done|].
  apply StronglySorted_app_2; [|done|repeat constructor].
  intros x y Hx ->%list_elem_of_singleton.
  apply encounteredBefore_fresh.
  - by apply elem_of_firstOccurrences.
  - by rewrite <- elem_of_firstOccurrences.
Qed.

Lemma commitsBy_snoc (names : list string) (a k : string) :
  commitsBy (names ++ [a]) k
  = commitsBy names k + (if decide (a = k) then 1 else 0).
Proof.
  unfold commitsBy. rewrite filter_app, length_app, filter_cons, filter_nil.
  destruct (decide (a = k)); simpl; lia.
Qed.

Lemma commitsBy_pos (names : list string) (k : string) :
  k ∈ names → 0 < commitsBy names k.
Proof.
  intros Hk. unfold commitsBy.
  assert (k ∈ filter (λ x, x = k) names) as Hin by by apply list_elem_of_filter.
  destruct (filter (λ x, x = k) names); [by apply elem_of_nil in Hin|].
  simpl. lia.
Qed.

Lemma commitsBy_absent (names : list string) (k : string) :
  k ∉ names → commitsBy names k = 0.
Proof.
  unfold commitsBy. induction names as [|x names IH]; [done|].
  intros [Hne Hk]%not_elem_of_cons. rewrite filter_cons.
  rewrite decide_False by done. by apply IH.
Qed.

Lemma get_cons (k : string) (v : Z) (o : JS.object) (a : string) :
  JS.get ((k, v) :: o) a = if decide (a = k) then Some v else JS.get o a.
Proof. reflexivity. Qed.

Lemma set_cons (k : string) (v' : Z) (o : JS.object) (a : string) (v : Z) :
  JS.set ((k, v') :: o) a v
  = if decide (a = k) then (a, v) :: o else (k, v') :: JS.set o a v.
Proof. reflexivity. Qed.

Lemma get_fmap (f : string → Z) (ks : list string) (a : string) :
  JS.get ((λ k, (k, f k)) <$> ks) a
  = if decide (a ∈ ks) then Some (f a) else None.
Proof.
  induction ks as [|k ks IH].
  - by rewrite decide_False by apply not_elem_of_nil.
  - rewrite fmap_cons, get_cons, IH.
    destruct (decide (a = k)) as [->|Hne].
    + by rewrite decide_True by apply list_elem_of_here.
    + destruct (decide (a ∈ ks)) as [Hin|Hin].
      * by rewrite decide_True by by apply list_elem_of_further.
      * rewrite decide_False; [done|]. by intros [?|?]%elem_of_cons.
Qed.

Lemma set_fmap_elem (f : string → Z) (ks : list string) (a : string) (v : Z) :
  NoDup ks → a ∈ ks →
  JS.set ((λ k, (k, f k)) <$> ks) a v
  = (λ k, (k, if decide (k = a) then v else f k)) <$> ks.
Proof.
  induction 1 as [|k ks Hk Hnd IH]; [by intros ?%elem_of_nil|].
  intros Ha. rewrite !fmap_cons, set_cons.
  destruct (decide (a = k)) as [->|Hne].
  - rewrite decide_True by done. f_equal.
    apply list_fmap_ext. intros _ x Hx%list_elem_of_lookup_2.
    rewrite decide_False; [done|]. by intros ->.
  - rewrite decide_False by done. f_equal. apply IH.
    by apply elem_of_cons in Ha as [?|?].
Qed.

Lemma set_fmap_fresh (f : string → Z) (ks : list string) (a : string) (v : Z) :
  a ∉ ks →
  JS.set ((λ k, (k, f k)) <$> ks) a v = ((λ k, (k, f k)) <$> ks) ++ [(a, v)].
Proof.
  induction ks as [|k ks IH]; [done|].
  intros [Hne Ha]%not_elem_of_cons. rewrite fmap_cons, set_cons.
  rewrite decide_False by done. by rewrite IH.
Qed.

(** The dictionary that the [reduce] builds: every name once, in the order
    of first encounter, with the number of its commits. *)
Lemma countKey_foldl (names : list string) :
  foldl countKey [] names
  = (λ k, (k, commitsBy names k)) <$> firstOccurrences names.
Proof.
  induction names as [|a names IH] using rev_ind; [done|].
  rewrite foldl_snoc, IH, firstOccurrences_snoc. unfold countKey.
  rewrite get_fmap.
  destruct (decide (a ∈ firstOccurrences names)) as [Ha|Ha].
  - pose proof (commitsBy_pos names a (proj1 (elem_of_firstOccurrences _ _) Ha)).
    unfold JS.or_number. rewrite decide_False by lia.
    rewrite set_fmap_elem by (done || apply NoDup_firstOccurrences).
    apply list_fmap_ext. intros _ k _. simpl.
    rewrite commitsBy_snoc.
    destruct (decide (k = a)) as [->|Hne].
    + by rewrite decide_True.
    + rewrite decide_False by done. f_equal. lia.
  - simpl. rewrite set_fmap_fresh by done. rewrite fmap_app. simpl.
    f_equal.
    + apply list_fmap_ext. intros _ k Hk%list_elem_of_lookup_2. simpl.
      rewrite commitsBy_snoc, decide_False; [f_equal; lia|].
      by intros ->.
    + rewrite commitsBy_snoc, decide_True by done.
      rewrite commitsBy_absent; [done|].
      by rewrite <- elem_of_firstOccurrences.
Qed.

(** Without array-index keys, [Object.entries] lists the properties in
    creation order. *)
Lemma entries_plain (o : JS.object) :
  Forall (λ kv, JS.is_array_index kv.1 = false) o → JS.entries o = o.
Proof.
  intros Ho. unfold JS.entries, JS.index_entries.
  assert (omap (λ kv : string * Z, (λ n, (n, kv)) <$> JS.array_index kv.1) o
          = []) as ->.
  { induction Ho as [|kv o Hkv Ho IH]; [done|]. simpl.
    unfold JS.is_array_index in Hkv.
    destruct (JS.array_index kv.1); [done|]. simpl. exact IH. }
  simpl. induction Ho as [|kv o Hkv Ho IH]; [done|].
  simpl. rewrite Hkv. simpl. by rewrite IH.
Qed.

Lemma elem_of_insert_sorted {A} (cmp : A → A → Z) (x y : A) (l : list A) :
  y ∈ JS.insert_sorted cmp x l ↔ y = x ∨ y ∈ l.
Proof.
  induction l as [|z l IH]; simpl.
  - rewrite list_elem_of_singleton, elem_of_nil. tauto.
  - destruct (cmp x z <=? 0).
    + by rewrite elem_of_cons.
    + rewrite !elem_of_cons, IH. tauto.
Qed.

Lemma elem_of_sort {A} (cmp : A → A → Z) (y : A) (l : list A) :
  y ∈ JS.sort cmp l ↔ y ∈ l.
Proof.
  unfold JS.sort. induction l as [|x l IH]; simpl; [done|].
  by rewrite elem_of_insert_sorted, elem_of_cons, IH.
Qed.

Section StableSort.
Context (before : relation (string * Z)).

(** Sorting by descending count: more commits first, and among equal counts
    the entry that was first before the sort. *)
Let ranked : relation (string * Z) :=
  λ e1 e2, e2.2 < e1.2 ∨ (e2.2 = e1.2 ∧ before e1 e2).

Let byCount : string * Z → string * Z → Z := λ a b, b.2 - a.2.

Lemma ranked_count (e1 e2 : string * Z) : ranked e1 e2 → e2.2 ≤ e1.2.
Proof. unfold ranked. lia. Qed.

Lemma insert_sorted_ranked (x : string * Z) (l : list (string * Z)) :
  StronglySorted ranked l → Forall (before x) l →
  StronglySorted ranked (JS.insert_sorted byCount x l).
Proof.
  induction 1 as [|y l Hl IH Hy]; intros Hx; simpl; [repeat constructor|].
  apply Forall_cons in Hx as [Hxy Hx].
  destruct (byCount x y <=? 0) eqn:Hcmp.
  - apply Z.leb_le in Hcmp. unfold byCount in Hcmp.
    constructor; [by constructor|].
    constructor.
    + unfold ranked. destruct (decide (y.2 = x.2)); [right|left; lia]. done.
    + rewrite Forall_forall in Hy, Hx. apply Forall_forall. intros z Hz.
      pose proof (ranked_count y z (Hy z Hz)).
      unfold ranked. destruct (decide (z.2 = x.2)); [right|left; lia].
      split; [done|]. by apply Hx.
  - apply Z.leb_gt in Hcmp. unfold byCount in Hcmp.
    constructor; [by apply IH|].
    apply Forall_forall. intros z [->|Hz]%elem_of_insert_sorted.
    + left. lia.
    + rewrite Forall_forall in Hy. by apply Hy.
Qed.

(** The sort is stable: entries that were in [before] order are ranked. *)
Lemma sort_ranked (l : list (string * Z)) :
  StronglySorted before l → StronglySorted ranked (JS.sort byCount l).
Proof.
  unfold JS.sort. induction 1 as [|x l Hl IH Hx]; simpl; [constructor|].
  apply insert_sorted_ranked; [done|].
  apply Forall_forall. intros y Hy%elem_of_sort.
  rewrite Forall_forall in Hx. by apply Hx.
Qed.

End StableSort.

Lemma plain_key_not_index (k : string) :
  JS.plain_key k = true → JS.is_array_index k = false.
Proof.
  unfold JS.plain_key. intros [Hk _]%andb_true_iff. by apply negb_true_iff.
Qed.

Lemma authorCount_names (p : Props) :
  authorCount p
  = (λ k, (k, commitsBy (authorNames p) k)) <$> firstOccurrences (authorNames p).
Proof.
  unfold authorCount, authorNames.
  by rewrite <- countKey_foldl, foldl_fmap.
Qed.

End AuthorFacts.

(** C7, amended.  When no author name is an array index or the name of an
    inherited member of objects, the author summary lists the top five
    authors: the authors with their commit counts, ranked by descending count
    with equal counts in the order of first encounter in the input, cut to
    the first five; the text has one line per ranked author. *)
Theorem topAuthors_ranking (p : EnhancedCommitExporter.Props) :
  (∀ a, a ∈ Observations.authorNames p → JS.plain_key a = true) →
  Observations.isTopFive (Observations.authorNames p)
    (EnhancedCommitExporter.topAuthors p)
  ∧ (length (EnhancedCommitExporter.topAuthors p) ≤ 5)%nat
  ∧ EnhancedCommitExporter.getAuthorAnalysis p
    = JS.join JS.LF
        ((λ e : string * Z,
            "- **" +:+ e.1 +:+ ":** " +:+ JS.string_of_Z e.2 +:+ " commits")
           <$> EnhancedCommitExporter.topAuthors p).
Proof.
  intros Hplain.
  set (names := Observations.authorNames p).
  assert (JS.entries (EnhancedCommitExporter.authorCount p)
          = (λ k, (k, Observations.commitsBy names k))
              <$> Observations.firstOccurrences names) as Hentries.
  { rewrite authorCount_names. apply entries_plain.
    apply Forall_fmap, Forall_forall. intros k Hk. simpl.
    by apply plain_key_not_index, Hplain, elem_of_firstOccurrences. }
  split; [|split; [|reflexivity]].
  - exists (JS.sort (λ a b : string * Z, b.2 - a.2)
              (JS.entries (EnhancedCommitExporter.authorCount p))).
    split_and!; [| |reflexivity].
    + intros a n. rewrite elem_of_sort, Hentries, list_elem_of_fmap.
      split.
      * intros (k & Heq & Hk). injection Heq as -> ->.
        split; [by apply elem_of_firstOccurrences|done].
      * intros [Ha ->]. exists a. by rewrite elem_of_firstOccurrences.
    + rewrite Hentries.
      apply (sort_ranked
               (λ e1 e2, Observations.encounteredBefore names e1.1 e2.1)).
      eapply StronglySorted_fmap; [|apply firstOccurrences_sorted].
      by intros x y Hxy.
  - unfold EnhancedCommitExporter.topAuthors, JS.slice0.
    rewrite length_take. lia.
Qed.

Lemma topAuthors_ranking_witness :
  (∀ a, a ∈ Observations.authorNames Sample.tiedAuthorsProps →
        JS.plain_key a = true)
  ∧ Observations.isTopFive
      (Observations.authorNames Sample.tiedAuthorsProps)
      (EnhancedCommitExporter.topAuthors Sample.tiedAuthorsProps).
Proof.
  assert (∀ a, a ∈ Observations.authorNames Sample.tiedAuthorsProps →
               JS.plain_key a = true) as Hplain.
  { apply Forall_forall.
    set (names := Observations.authorNames Sample.tiedAuthorsProps).
    vm_compute in names. subst names. repeat constructor. }
  split; [exact Hplain|].
  exact (proj1 (topAuthors_ranking Sample.tiedAuthorsProps Hplain)).
Defined.

(** The example of the ranking: for the counts A:5, B:5, C:3 with A
    encountered before B, the summary lists A, B, C. *)
Example topAuthors_tied :
  EnhancedCommitExporter.topAuthors Sample.tiedAuthorsProps
  = [("A", 5); ("B", 5); ("C", 3)].
Proof. reflexivity. Qed.

(** C7, as stated, fails when an author name is an array index: for a commit
    by B followed by a commit by 7, [Object.entries] lists the key 7 first,
    so the summary lists 7 before B although B was encountered first. *)
Lemma topAuthors_digit_name_not_by_encounter :
  EnhancedCommitExporter.topAuthors Sample.digitAuthorProps
  = [("7", 1); ("B", 1)]
  ∧ ¬ Observations.isTopFive
        (Observations.authorNames Sample.digitAuthorProps)
        (EnhancedCommitExporter.topAuthors Sample.digitAuthorProps).
Proof.
  split; [reflexivity|].
  change (EnhancedCommitExporter.topAuthors Sample.digitAuthorProps)
    with [("7", 1); ("B", 1)].
  change (Observations.authorNames Sample.digitAuthorProps)
    with ["B"; "7"].
  intros (ranking & _ & Hsorted & Htop).
  assert (ranking = [("7", 1); ("B", 1)]) as ->.
  { destruct ranking as [|e1 [|e2 [|e3 ranking]]]; simpl in Htop;
      by simplify_eq. }
  apply StronglySorted_inv in Hsorted as [_ Hfirst].
  apply Forall_cons in Hfirst as [[Hlt|[_ Henc]] _]; [simpl in Hlt; lia|].
  destruct Henc as (_ & l1 & l2 & Hsplit & HB). simpl in *.
  destruct l1 as [|x l1]; simplify_eq/=.
  apply HB, list_elem_of_here.
Qed.

(** ** The document *)

Section DocumentFacts.
Import EnhancedCommitExporter Observations.
Context `{Env}.

Lemma hasLF_append (s t : string) : hasLF (s +:+ t) = hasLF s || hasLF t.
Proof.
  induction s as [|a s IH]; [done|].
  rewrite append_cons. simpl. by rewrite IH, orb_assoc.
Qed.

Lemma split_lines_line (line rest : string) :
  singleLine line →
  JS.split_lines (line +:+ JS.LF +:+ rest) = line :: JS.split_lines rest.
Proof.
  unfold singleLine. induction line as [|a line IH]; intros Hline.
  - reflexivity.
  - simpl in Hline. apply orb_false_iff in Hline as [Ha Hline].
    apply bool_decide_eq_false in Ha.
    rewrite append_cons. simpl. rewrite decide_False by done.
    by rewrite IH.
Qed.

Lemma allDigits_string_of_uint (d : Decimal.uint) :
  allDigits (NilEmpty.string_of_uint d) = true.
Proof. induction d; simpl; done. Qed.

Lemma allDigits_singleLine (s : string) : allDigits s = true → singleLine s.
Proof.
  unfold singleLine. induction s as [|a s IH]; [done|]. simpl.
  intros [Ha Hs]%andb_true_iff. rewrite IH by done.
  rewrite orb_false_r. apply bool_decide_eq_false. by intros ->.
Qed.

Lemma singleLine_string_of_nat (n : nat) : singleLine (JS.string_of_nat n).
Proof. apply allDigits_singleLine, allDigits_string_of_uint. Qed.

Lemma singleLine_append (s t : string) :
  singleLine s → singleLine t → singleLine (s +:+ t).
Proof. unfold singleLine. intros Hs Ht. by rewrite hasLF_append, Hs, Ht. Qed.

Lemma singleLine_join (sep : string) (xs : list string) :
  singleLine sep → Forall singleLine xs → singleLine (JS.join sep xs).
Proof.
  intros Hsep. unfold JS.join. induction 1 as [|x xs Hx Hxs IH]; [done|].
  destruct xs as [|y xs]; [done|].
  change (String.concat sep (x :: y :: xs))
    with (x +:+ sep +:+ String.concat sep (y :: xs)).
  by repeat apply singleLine_append.
Qed.

Lemma leadingDigits_append (s : string) (a : ascii) (t : string) :
  allDigits s = true → isDigit a = false →
  leadingDigits (s +:+ String a t) = s.
Proof.
  intros Hs Ha. induction s as [|b s IH]; simpl.
  - by rewrite Ha.
  - simpl in Hs. apply andb_true_iff in Hs as [Hb Hs]. by rewrite Hb, IH.
Qed.

Lemma string_of_nat_nonempty (n : nat) : JS.string_of_nat n ≠ "".
Proof.
  unfold JS.string_of_nat. intros Hn.
  assert (Nat.to_uint n = Decimal.Nil) as Hnil.
  { by destruct (Nat.to_uint n). }
  apply (unorm_nonnil (Nat.to_uint n)).
  by rewrite <- Unsigned.to_of, Unsigned.of_to.
Qed.

(** Reading back a printed length. *)
Lemma read_string_of_nat (n : nat) :
  Nat.of_uint <$> NilEmpty.uint_of_string (JS.string_of_nat n) = Some n.
Proof.
  unfold JS.string_of_nat. rewrite NilEmpty.usu. simpl.
  by rewrite Unsigned.of_to.
Qed.

(** The first six lines of the document. *)
Lemma header_lines (p : Props) (rest : string) :
  ∃ rest' : string,
    header p +:+ rest
    = "# GitHub Commit Analysis - Optimized for LLM" +:+ JS.LF +:+
      "" +:+ JS.LF +:+
      ("**User:** " +:+ username p) +:+ JS.LF +:+
      ("**Repositories:** " +:+
         (if decide (0 < length (selectedRepos p))%nat
          then JS.join ", " (selectedRepos p) else "All repositories"))
        +:+ JS.LF +:+
      ("**Date Range:** " +:+ format (from (dateRange p)) "yyyy-MM-dd"
         +:+ " to " +:+ format (to (dateRange p)) "yyyy-MM-dd") +:+ JS.LF +:+
      (totalCommitsLabel +:+ JS.string_of_nat (length (filteredCommits p))
         +:+ " (filtered from " +:+ JS.string_of_nat (length (commits p))
         +:+ ")") +:+ JS.LF +:+
      rest'.
Proof.
  eexists. unfold header, totalCommitsLabel.
  rewrite !append_assoc. reflexivity.
Qed.

Lemma find_skip {A} (f : A → bool) (x : A) (l : list A) :
  f x = false → List.find f (x :: l) = List.find f l.
Proof. intros Hx. simpl. by rewrite Hx. Qed.

Lemma find_hit {A} (f : A → bool) (x : A) (l : list A) :
  f x = true → List.find f (x :: l) = Some x.
Proof. intros Hx. simpl. by rewrite Hx. Qed.

Lemma dropChars_append (s t : string) :
  dropChars (String.length s) (s +:+ t) = t.
Proof. induction s as [|a s IH]; [by destruct t|]. by rewrite append_cons. Qed.

(** The reader finds the printed length of the filtered list. *)
Lemma statedTotalCommits_header (p : Props) (rest : string) :
  singleLine (username p) →
  Forall singleLine (selectedRepos p) →
  singleLine (format (from (dateRange p)) "yyyy-MM-dd") →
  singleLine (format (to (dateRange p)) "yyyy-MM-dd") →
  statedTotalCommits (header p +:+ rest) = Some (length (filteredCommits p)).
Proof.
  intros Huser Hrepos Hfrom Hto.
  destruct (header_lines p rest) as [rest' ->].
  unfold statedTotalCommits.
  rewrite split_lines_line by reflexivity.
  rewrite split_lines_line by reflexivity.
  rewrite split_lines_line by by apply singleLine_append.
  rewrite split_lines_line.
  2:{ apply singleLine_append; [reflexivity|].
      destruct (decide (0 < length (selectedRepos p))%nat); [|reflexivity].
      by apply singleLine_join. }
  rewrite split_lines_line by by repeat apply singleLine_append.
  rewrite split_lines_line.
  2:{ repeat apply singleLine_append;
        reflexivity || apply singleLine_string_of_nat. }
  do 5 rewrite find_skip by reflexivity.
  rewrite find_hit by apply prefix_append.
  rewrite dropChars_append.
  assert (leadingDigits
            (JS.string_of_nat (length (filteredCommits p))
             +:+ " (filtered from "
             +:+ JS.string_of_nat (length (commits p)) +:+ ")")
          = JS.string_of_nat (length (filteredCommits p))) as ->.
  { apply (leadingDigits_append _ " "%char);
      [apply allDigits_string_of_uint|reflexivity]. }
  rewrite decide_False by apply string_of_nat_nonempty.
  apply read_string_of_nat.
Qed.

(** The document starts with the preamble and the line of the total. *)
Lemma header_preamble (p : Props) :
  ∃ rest : string,
    generateOptimizedFormat p
    = preamble (username p) (selectedRepos p) (dateRange p)
      +:+ totalCommitsLabel
      +:+ JS.string_of_nat (length (filteredCommits p))
      +:+ " (filtered from " +:+ JS.string_of_nat (length (commits p))
      +:+ ")" +:+ JS.LF +:+ rest.
Proof.
  eexists. unfold generateOptimizedFormat, header, preamble, totalCommitsLabel.
  rewrite !append_assoc. reflexivity.
Qed.

End DocumentFacts.

(** C8.  The generated document states, right after the lines for the user,
    the repositories and the date range, the length of the filtered list it
    was generated from as its total, and this is the total that a reader of
    the document finds (for a user name, repository names and dates that are
    printed on one line).  The document is the header, then the per-commit
    blocks joined by line feeds, then the summary: there is one block per
    filtered commit, and the block at position i is the formatting of the
    commit at position i, numbered i + 1. *)
Theorem generateOptimizedFormat_total_and_order `{Env}
    (p : EnhancedCommitExporter.Props) :
  (∃ rest : string,
     EnhancedCommitExporter.generateOptimizedFormat p
     = Observations.preamble (EnhancedCommitExporter.username p)
         (EnhancedCommitExporter.selectedRepos p)
         (EnhancedCommitExporter.dateRange p)
       +:+ Observations.totalCommitsLabel
       +:+ JS.string_of_nat (length (EnhancedCommitExporter.filteredCommits p))
       +:+ " (filtered from "
       +:+ JS.string_of_nat (length (EnhancedCommitExporter.commits p))
       +:+ ")" +:+ JS.LF +:+ rest)
  ∧ (Observations.singleLine (EnhancedCommitExporter.username p) →
     Forall Observations.singleLine (EnhancedCommitExporter.selectedRepos p) →
     Observations.singleLine
       (format (from (EnhancedCommitExporter.dateRange p)) "yyyy-MM-dd") →
     Observations.singleLine
       (format (to (EnhancedCommitExporter.dateRange p)) "yyyy-MM-dd") →
     Observations.statedTotalCommits
       (EnhancedCommitExporter.generateOptimizedFormat p)
     = Some (length (EnhancedCommitExporter.filteredCommits p)))
  ∧ EnhancedCommitExporter.generateOptimizedFormat p
    = EnhancedCommitExporter.header p
      +:+ JS.join JS.LF (EnhancedCommitExporter.commitBlocks p)
      +:+ EnhancedCommitExporter.summary p
  ∧ length (EnhancedCommitExporter.commitBlocks p)
    = length (EnhancedCommitExporter.filteredCommits p)
  ∧ (∀ (i : nat) (c : Commit),
       EnhancedCommitExporter.filteredCommits p !! i = Some c →
       EnhancedCommitExporter.commitBlocks p !! i
       = Some (EnhancedCommitExporter.formatCommitByDetailLevel c (i + 1)
                 (EnhancedCommitExporter.detailLevel p))).
Proof.
  split_and!.
  - apply header_preamble.
  - intros Huser Hrepos Hfrom Hto. by apply statedTotalCommits_header.
  - reflexivity.
  - apply length_imap.
  - intros i c Hc. unfold EnhancedCommitExporter.commitBlocks.
    by rewrite list_lookup_imap, Hc.
Qed.

Lemma generateOptimizedFormat_total_and_order_witness :
  Observations.singleLine
    (EnhancedCommitExporter.username Sample.januaryProps)
  ∧ Forall Observations.singleLine
      (EnhancedCommitExporter.selectedRepos Sample.januaryProps)
  ∧ Observations.singleLine
      (format (Env := Sample.env)
         (from (EnhancedCommitExporter.dateRange Sample.januaryProps))
         "yyyy-MM-dd")
  ∧ Observations.singleLine
      (format (Env := Sample.env)
         (to (EnhancedCommitExporter.dateRange Sample.januaryProps))
         "yyyy-MM-dd")
  ∧ Observations.statedTotalCommits
      (EnhancedCommitExporter.generateOptimizedFormat (H := Sample.env)
         Sample.januaryProps)
    = Some 3%nat.
Proof.
  assert (Observations.singleLine
            (EnhancedCommitExporter.username Sample.januaryProps)) as Huser
    by reflexivity.
  assert (Forall Observations.singleLine
            (EnhancedCommitExporter.selectedRepos Sample.januaryProps)) as Hrepos
    by (vm_compute; repeat constructor).
  assert (Observations.singleLine
            (format (Env := Sample.env)
               (from (EnhancedCommitExporter.dateRange Sample.januaryProps))
               "yyyy-MM-dd")) as Hfrom by (vm_compute; reflexivity).
  assert (Observations.singleLine
            (format (Env := Sample.env)
               (to (EnhancedCommitExporter.dateRange Sample.januaryProps))
               "yyyy-MM-dd")) as Hto by (vm_compute; reflexivity).
  split_and!; [exact Huser|exact Hrepos|exact Hfrom|exact Hto|].
  exact (proj1 (proj2 (generateOptimizedFormat_total_and_order (H := Sample.env)
                         Sample.januaryProps)) Huser Hrepos Hfrom Hto).
Defined.

(** * Further properties of the components *)

(** ** The handlers of the filter *)

Section FilterHandlerFacts.
Import CommitFilter.

Lemma keeps_ext (repos repos' : list string) (c : Commit) :
  (∀ x, x ∈ repos ↔ x ∈ repos') → keeps repos c = keeps repos' c.
Proof.
  intros Hext. destruct repos as [|r repos], repos' as [|r' repos'].
  - done.
  - pose proof (proj2 (Hext r') (list_elem_of_here _ _)) as Hr.
    by apply elem_of_nil in Hr.
  - pose proof (proj1 (Hext r) (list_elem_of_here _ _)) as Hr.
    by apply elem_of_nil in Hr.
  - rewrite !keeps_cons. apply bool_decide_ext, Hext.
Qed.

Lemma filter_ext_in {A} (f g : A → bool) (l : list A) :
  (∀ x, x ∈ l → f x = g x) → List.filter f l = List.filter g l.
Proof.
  induction l as [|x l IH]; intros Hfg; [done|]. simpl.
  rewrite (Hfg x) by apply list_elem_of_here.
  rewrite IH; [done|]. intros y Hy. by apply Hfg, list_elem_of_further.
Qed.

(** The filter looks at the selection as a set. *)
Lemma applyFilters_ext (commits : list Commit) (repos repos' : list string)
    (detail : Z) :
  (∀ x, x ∈ repos ↔ x ∈ repos') →
  applyFilters commits repos detail = applyFilters commits repos' detail.
Proof.
  intros Hext. unfold applyFilters.
  by rewrite (filter_ext_in (keeps repos) (keeps repos') commits)
    by (intros c _; by apply keeps_ext).
Qed.

Lemma elem_of_filter_ne (xs : list string) (r x : string) :
  x ∈ List.filter (λ y, negb (bool_decide (y = r))) xs ↔ x ∈ xs ∧ x ≠ r.
Proof.
  rewrite list_elem_of_In, filter_In, <- list_elem_of_In.
  rewrite negb_true_iff, bool_decide_eq_false. done.
Qed.

Lemma filter_ne_absent (xs : list string) (r : string) :
  r ∉ xs → List.filter (λ y, negb (bool_decide (y = r))) xs = xs.
Proof.
  induction xs as [|x xs IH]; [done|].
  intros [Hne Hr]%not_elem_of_cons. simpl.
  rewrite bool_decide_eq_false_2 by (by intros ->). simpl. by rewrite IH.
Qed.

Lemma NoDup_list_filter {A} (f : A → bool) (l : list A) :
  NoDup l → NoDup (List.filter f l).
Proof.
  induction 1 as [|x l Hx Hl IH]; simpl; [constructor|].
  destruct (f x); [|done]. constructor; [|done].
  rewrite list_elem_of_In, filter_In, <- list_elem_of_In. tauto.
Qed.

Lemma filter_sublist_impl {A} (f g : A → bool) (l : list A) :
  (∀ x, f x = true → g x = true) →
  List.filter f l `sublist_of` List.filter g l.
Proof.
  intros Hfg. induction l as [|x l IH]; simpl; [done|].
  destruct (f x) eqn:Hf.
  - rewrite (Hfg x Hf). by constructor.
  - destruct (g x); [by constructor|done].
Qed.

Lemma filter_idemp {A} (f : A → bool) (l : list A) :
  List.filter f (List.filter f l) = List.filter f l.
Proof.
  induction l as [|x l IH]; simpl; [done|].
  destruct (f x) eqn:Hf; simpl; [|done]. by rewrite Hf, IH.
Qed.

Lemma getTokensPerCommit_range (level : Z) :
  25 ≤ getTokensPerCommit level ≤ 200.
Proof.
  destruct (decide (1 ≤ level ≤ 5)) as [Hl|Hl].
  - assert (level = 1 ∨ level = 2 ∨ level = 3 ∨ level = 4 ∨ level = 5)
      as [->|[->|[->|[->| ->]]]] by lia; vm_compute; split; discriminate.
  - rewrite getTokensPerCommit_out_of_range by lia. lia.
Qed.

End FilterHandlerFacts.

(** X1.  [handleRepoToggle] flips the membership of the toggled repository
    in the selection and of no other name, and a selection without
    duplicates stays without duplicates. *)
Theorem handleRepoToggle_flips (commits : list Commit)
    (st : CommitFilter.State) (repoName : string) :
  (repoName ∈ CommitFilter.selectedRepos
                (CommitFilter.handleRepoToggle commits st repoName).1
   ↔ repoName ∉ CommitFilter.selectedRepos st)
  ∧ (∀ x, x ≠ repoName →
       (x ∈ CommitFilter.selectedRepos
              (CommitFilter.handleRepoToggle commits st repoName).1
        ↔ x ∈ CommitFilter.selectedRepos st))
  ∧ (NoDup (CommitFilter.selectedRepos st) →
     NoDup (CommitFilter.selectedRepos
              (CommitFilter.handleRepoToggle commits st repoName).1)).
Proof.
  unfold CommitFilter.handleRepoToggle, JS.includes. simpl.
  destruct (bool_decide_reflect
              (repoName ∈ CommitFilter.selectedRepos st)) as [Hin|Hin].
  - split_and!.
    + rewrite elem_of_filter_ne. tauto.
    + intros x Hx. rewrite elem_of_filter_ne. tauto.
    + apply NoDup_list_filter.
  - split_and!.
    + rewrite elem_of_app, list_elem_of_singleton. tauto.
    + intros x Hx. rewrite elem_of_app, list_elem_of_singleton. tauto.
    + intros Hnd. apply NoDup_app. split_and!; [done| |apply NoDup_singleton].
      by intros x Hx ->%list_elem_of_singleton.
Qed.

(** X2.  Toggling the same repository twice gives back the selection as a
    set, and with it the filtered list and the token estimate that the
    parent is told; when the repository was not selected at first, the
    selection is the same list again. *)
Theorem handleRepoToggle_twice (commits : list Commit)
    (st : CommitFilter.State) (repoName : string) :
  (∀ x,
     x ∈ CommitFilter.selectedRepos
           (CommitFilter.handleRepoToggle commits
              (CommitFilter.handleRepoToggle commits st repoName).1 repoName).1
     ↔ x ∈ CommitFilter.selectedRepos st)
  ∧ (CommitFilter.handleRepoToggle commits
       (CommitFilter.handleRepoToggle commits st repoName).1 repoName).2
    = CommitFilter.applyFilters commits (CommitFilter.selectedRepos st)
        (CommitFilter.detailLevel st)
  ∧ (repoName ∉ CommitFilter.selectedRepos st →
     CommitFilter.selectedRepos
       (CommitFilter.handleRepoToggle commits
          (CommitFilter.handleRepoToggle commits st repoName).1 repoName).1
     = CommitFilter.selectedRepos st).
Proof.
  set (st1 := (CommitFilter.handleRepoToggle commits st repoName).1).
  assert (∀ x,
     x ∈ CommitFilter.selectedRepos
           (CommitFilter.handleRepoToggle commits st1 repoName).1
     ↔ x ∈ CommitFilter.selectedRepos st) as Hset.
  { intros x.
    destruct (handleRepoToggle_flips commits st repoName) as (H1 & H1' & _).
    destruct (handleRepoToggle_flips commits st1 repoName) as (H2 & H2' & _).
    fold st1 in H1, H1'.
    destruct (decide (x = repoName)) as [->|Hne].
    - rewrite H2, H1.
      destruct (decide (repoName ∈ CommitFilter.selectedRepos st)); tauto.
    - by rewrite H2', H1'. }
  split; [exact Hset|]. split.
  - unfold CommitFilter.handleRepoToggle at 1. simpl.
    by apply applyFilters_ext.
  - intros Hnot. subst st1.
    unfold CommitFilter.handleRepoToggle, JS.includes. simpl.
    rewrite (bool_decide_eq_false_2 _ Hnot).
    rewrite bool_decide_eq_true_2
      by (apply elem_of_app; right; apply list_elem_of_here).
    rewrite List.filter_app, filter_ne_absent by done. simpl.
    rewrite bool_decide_eq_true_2 by done. simpl. by rewrite app_nil_r.
Qed.

Lemma handleRepoToggle_twice_witness :
  ("core" ∉ CommitFilter.selectedRepos CommitFilter.initial)
  ∧ CommitFilter.selectedRepos
      (CommitFilter.handleRepoToggle Sample.threeCommits
         (CommitFilter.handleRepoToggle Sample.threeCommits
            CommitFilter.initial "core").1 "core").1
    = CommitFilter.selectedRepos CommitFilter.initial.
Proof.
  assert ("core" ∉ CommitFilter.selectedRepos CommitFilter.initial) as Hnot
    by apply not_elem_of_nil.
  split; [exact Hnot|].
  exact (proj2 (proj2 (handleRepoToggle_twice Sample.threeCommits
                         CommitFilter.initial "core")) Hnot).
Defined.

(** X3.  Selecting more repositories never removes a commit: when a
    non-empty selection is contained in another, its filtered list is a
    sublist of the other's and its token estimate is not larger.  (The empty
    selection is excluded: it stands for all repositories.) *)
Theorem applyFilters_monotone (commits : list Commit)
    (repos repos' : list string) (detail : Z) :
  repos ≠ [] → repos ⊆ repos' →
  (CommitFilter.applyFilters commits repos detail).1
    `sublist_of` (CommitFilter.applyFilters commits repos' detail).1
  ∧ (CommitFilter.applyFilters commits repos detail).2
    ≤ (CommitFilter.applyFilters commits repos' detail).2.
Proof.
  intros Hne Hsub.
  assert ((CommitFilter.applyFilters commits repos detail).1
            `sublist_of` (CommitFilter.applyFilters commits repos' detail).1)
    as Hsl.
  { unfold CommitFilter.applyFilters. simpl. apply filter_sublist_impl.
    intros c. destruct repos as [|r repos]; [done|].
    rewrite keeps_cons, bool_decide_eq_true. intros Hin%Hsub.
    destruct repos' as [|r' repos']; [done|].
    by rewrite keeps_cons, bool_decide_eq_true. }
  split; [exact Hsl|].
  apply sublist_length in Hsl. unfold CommitFilter.applyFilters in *.
  simpl in *. pose proof (getTokensPerCommit_range detail). nia.
Qed.

Lemma applyFilters_monotone_witness :
  ["core"] ≠ [] ∧ ["core"] ⊆ ["docs"; "core"]
  ∧ (CommitFilter.applyFilters Sample.threeCommits ["core"] 3).2
    ≤ (CommitFilter.applyFilters Sample.threeCommits ["docs"; "core"] 3).2.
Proof.
  assert (["core"] ≠ []) as Hne by discriminate.
  assert (["core"] ⊆ ["docs"; "core"]) as Hsub.
  { intros x ->%list_elem_of_singleton. by apply list_elem_of_further, list_elem_of_here. }
  split; [exact Hne|]. split; [exact Hsub|].
  exact (proj2 (applyFilters_monotone Sample.threeCommits ["core"]
                  ["docs"; "core"] 3 Hne Hsub)).
Defined.

(** X4.  Filtering is idempotent: applying the filter with the same
    selection and level to its own result returns the same list and the
    same token estimate. *)
Theorem applyFilters_idempotent (commits : list Commit)
    (repos : list string) (detail : Z) :
  CommitFilter.applyFilters
    (CommitFilter.applyFilters commits repos detail).1 repos detail
  = CommitFilter.applyFilters commits repos detail.
Proof.
  unfold CommitFilter.applyFilters. simpl. by rewrite filter_idemp.
Qed.

(** X5.  Whatever the level, in or out of range, the token estimate lies
    between 25 and 200 tokens per filtered commit, and the filter never
    returns more commits than it was given. *)
Theorem applyFilters_estimate_bounds (commits : list Commit)
    (repos : list string) (detail : Z) :
  25 * Z.of_nat (length (CommitFilter.applyFilters commits repos detail).1)
    ≤ (CommitFilter.applyFilters commits repos detail).2
    ≤ 200 * Z.of_nat (length (CommitFilter.applyFilters commits repos detail).1)
  ∧ (length (CommitFilter.applyFilters commits repos detail).1
     ≤ length commits)%nat.
Proof.
  unfold CommitFilter.applyFilters. simpl.
  pose proof (getTokensPerCommit_range detail).
  split; [nia|]. apply List.filter_length_le.
Qed.

(** X6.  Between levels 1 and 5 more detail never costs fewer tokens: the
    estimate for the same commits and selection does not decrease with the
    level, and it increases when a commit is kept. *)
Theorem applyFilters_estimate_by_level (commits : list Commit)
    (repos : list string) (l l' : Z) :
  1 ≤ l → l < l' → l' ≤ 5 →
  (CommitFilter.applyFilters commits repos l).2
    ≤ (CommitFilter.applyFilters commits repos l').2
  ∧ ((CommitFilter.applyFilters commits repos l).1 ≠ [] →
     (CommitFilter.applyFilters commits repos l).2
       < (CommitFilter.applyFilters commits repos l').2).
Proof.
  intros H1 H2 H3.
  assert (CommitFilter.getTokensPerCommit l
            < CommitFilter.getTokensPerCommit l') as Hlt.
  { assert (l = 1 ∨ l = 2 ∨ l = 3 ∨ l = 4) as Hl by lia.
    assert (l' = 2 ∨ l' = 3 ∨ l' = 4 ∨ l' = 5) as Hl' by lia.
    destruct Hl as [->|[->|[->| ->]]]; destruct Hl' as [->|[->|[->| ->]]];
      try lia; reflexivity. }
  unfold CommitFilter.applyFilters. simpl. split; [nia|].
  intros Hne.
  destruct (List.filter (CommitFilter.keeps repos) commits); [done|].
  simpl length. nia.
Qed.

Lemma applyFilters_estimate_by_level_witness :
  1 ≤ 2 ∧ 2 < 4 ∧ 4 ≤ 5
  ∧ (CommitFilter.applyFilters Sample.threeCommits [] 2).2
    ≤ (CommitFilter.applyFilters Sample.threeCommits [] 4).2.
Proof.
  split; [lia|]. split; [lia|]. split; [lia|].
  exact (proj1 (applyFilters_estimate_by_level Sample.threeCommits [] 2 4
                  ltac:(lia) ltac:(lia) ltac:(lia))).
Defined.

(** X7.  The colour of the token badge follows the thresholds 1000, 5000
    and 10000, and a larger token count never gives a less alarming
    colour. *)
Theorem getTokenColor_bands (tokens tokens' : Z) :
  (CommitFilter.getTokenColor tokens = "bg-green-600" ↔ tokens < 1000)
  ∧ (CommitFilter.getTokenColor tokens = "bg-yellow-600"
     ↔ 1000 ≤ tokens < 5000)
  ∧ (CommitFilter.getTokenColor tokens = "bg-orange-600"
     ↔ 5000 ≤ tokens < 10000)
  ∧ (CommitFilter.getTokenColor tokens = "bg-red-600" ↔ 10000 ≤ tokens)
  ∧ (tokens ≤ tokens' →
     (Observations.severity (CommitFilter.getTokenColor tokens)
      ≤ Observations.severity (CommitFilter.getTokenColor tokens'))%nat).
Proof.
  unfold CommitFilter.getTokenColor.
  destruct (Z.ltb_spec tokens 1000); [|destruct (Z.ltb_spec tokens 5000);
    [|destruct (Z.ltb_spec tokens 10000)]];
  (split_and!; [split; (discriminate || lia || done)..|]);
  intros Hle;
  (destruct (Z.ltb_spec tokens' 1000); [|destruct (Z.ltb_spec tokens' 5000);
    [|destruct (Z.ltb_spec tokens' 10000)]]);
  try lia; vm_compute; lia.
Qed.

(** X8.  After a toggle of a repository or a change of the detail level the
    stored token count is the shown number of filtered commits times the
    shown number of tokens per commit, and it is the estimate that the
    parent is told together with a filtered list of the shown length. *)
Theorem handlers_keep_count_in_step (commits : list Commit)
    (st : CommitFilter.State) (repoName : string) (value : Z) :
  (CommitFilter.tokenCount (CommitFilter.handleRepoToggle commits st repoName).1
   = Z.of_nat (CommitFilter.filteredCommitsShown commits
                 (CommitFilter.handleRepoToggle commits st repoName).1)
     * CommitFilter.tokensPerCommitShown
         (CommitFilter.handleRepoToggle commits st repoName).1
   ∧ (CommitFilter.handleRepoToggle commits st repoName).2.2
     = CommitFilter.tokenCount
         (CommitFilter.handleRepoToggle commits st repoName).1
   ∧ length (CommitFilter.handleRepoToggle commits st repoName).2.1
     = CommitFilter.filteredCommitsShown commits
         (CommitFilter.handleRepoToggle commits st repoName).1)
  ∧ (CommitFilter.tokenCount
       (CommitFilter.handleDetailLevelChange commits st value).1
     = Z.of_nat (CommitFilter.filteredCommitsShown commits
                   (CommitFilter.handleDetailLevelChange commits st value).1)
       * CommitFilter.tokensPerCommitShown
           (CommitFilter.handleDetailLevelChange commits st value).1
     ∧ (CommitFilter.handleDetailLevelChange commits st value).2.2
       = CommitFilter.tokenCount
           (CommitFilter.handleDetailLevelChange commits st value).1
     ∧ length (CommitFilter.handleDetailLevelChange commits st value).2.1
       = CommitFilter.filteredCommitsShown commits
           (CommitFilter.handleDetailLevelChange commits st value).1).
Proof.
  assert (∀ sel d t,
            CommitFilter.filteredCommitsShown commits
              (CommitFilter.mkState sel d t)
            = length (CommitFilter.applyFilters commits sel d).1) as Hshown.
  { intros sel d t. unfold CommitFilter.filteredCommitsShown,
      CommitFilter.applyFilters. simpl. f_equal.
    apply filter_ext_in. intros c _. unfold CommitFilter.keeps,
      CommitFilter.repoName.
    by destruct (decide (length sel = 0%nat)) as [->|Hne];
      [|rewrite bool_decide_eq_false_2 by done]. }
  split.
  - unfold CommitFilter.handleRepoToggle. cbv zeta. simpl fst. simpl snd.
    rewrite Hshown. split_and!; reflexivity.
  - unfold CommitFilter.handleDetailLevelChange. cbv zeta. simpl fst. simpl snd.
    rewrite Hshown. split_and!; reflexivity.
Qed.

(** ** The parts of a commit block *)

Section BlockFacts.
Import EnhancedCommitExporter Observations.
Context `{Env}.

Lemma substring0_length (n : nat) (s : string) :
  String.length (JS.substring0 n s) = (n `min` String.length s)%nat.
Proof.
  unfold JS.substring0. revert n.
  induction s as [|a s IH]; intros [|n]; simpl; try done.
  by rewrite IH.
Qed.

Lemma substring0_all (n : nat) (s : string) :
  (String.length s ≤ n)%nat → JS.substring0 n s = s.
Proof.
  unfold JS.substring0. revert n.
  induction s as [|a s IH]; intros [|n] Hn; simpl in *; try done; [lia|].
  rewrite IH; [done|lia].
Qed.

(** The first of the lines of a text has no line feed, and a text without
    line feed is its only line. *)
Lemma split_lines_head (s : string) :
  ∃ (l : string) (ls : list string),
    JS.split_lines s = l :: ls ∧ singleLine l
    ∧ (singleLine s → l = s ∧ ls = []).
Proof.
  unfold singleLine. induction s as [|a s IH]; simpl.
  - by exists "", [].
  - destruct IH as (l & ls & -> & Hl & Hs).
    destruct (decide (a = "010"%char)) as [->|Hne].
    + exists "", (l :: ls). split_and!; [done..|].
      intros Hf. simpl in Hf. discriminate.
    + exists (String a l), ls. split_and!; [done| |].
      * simpl. rewrite Hl. by rewrite bool_decide_eq_false_2.
      * rewrite bool_decide_eq_false_2 by done. simpl.
        intros Hs'. destruct (Hs Hs') as [-> ->]. done.
Qed.

(** Splitting a text into lines and joining the lines gives the text
    back. *)
Lemma join_split_lines (s : string) : JS.join JS.LF (JS.split_lines s) = s.
Proof.
  unfold JS.join. induction s as [|a s IH]; [done|]. simpl.
  destruct (split_lines_head s) as (l & ls & Hsplit & _).
  rewrite Hsplit in *.
  destruct (decide (a = "010"%char)) as [->|Hne].
  - change (String.concat JS.LF ("" :: l :: ls))
      with ("" +:+ JS.LF +:+ String.concat JS.LF (l :: ls)).
    by rewrite IH.
  - destruct ls as [|y ys].
    + simpl in *. by rewrite IH.
    + change (String.concat JS.LF (String a l :: y :: ys))
        with (String a (l +:+ JS.LF +:+ String.concat JS.LF (y :: ys))).
      by rewrite <- IH.
Qed.

Lemma trimStart_first (s : string) (a : ascii) :
  firstChar (JS.trimStart s) = Some a → Ascii.is_space a = false.
Proof.
  induction s as [|b s IH]; simpl; [done|].
  destruct (Ascii.is_space b) eqn:Hb; [done|].
  simpl. by intros [= <-].
Qed.

Lemma trimEnd_first (s : string) (a : ascii) :
  firstChar (JS.trimEnd s) = Some a → firstChar s = Some a.
Proof.
  destruct s as [|b s]; simpl; [done|].
  destruct (decide (JS.trimEnd s = "")); [|done].
  by destruct (Ascii.is_space b).
Qed.

Lemma trimEnd_last (s : string) (a : ascii) :
  lastChar (JS.trimEnd s) = Some a → Ascii.is_space a = false.
Proof.
  induction s as [|b s IH]; simpl; [done|].
  destruct (decide (JS.trimEnd s = "")) as [Hnil|Hne].
  - destruct (Ascii.is_space b) eqn:Hb; [done|]. simpl. by intros [= <-].
  - destruct (JS.trimEnd s) as [|b' t] eqn:Ht; [done|]. exact IH.
Qed.

Lemma trimStart_clean (s : string) :
  (∀ a, firstChar s = Some a → Ascii.is_space a = false) → JS.trimStart s = s.
Proof.
  destruct s as [|b s]; [done|]. intros Hb. simpl.
  by rewrite (Hb b eq_refl).
Qed.

Lemma trimEnd_idemp (s : string) : JS.trimEnd (JS.trimEnd s) = JS.trimEnd s.
Proof.
  induction s as [|b s IH]; simpl; [done|].
  destruct (decide (JS.trimEnd s = "")) as [Hnil|Hne].
  - destruct (Ascii.is_space b) eqn:Hb; [done|]. simpl. by rewrite Hb.
  - simpl. rewrite IH. by rewrite decide_False.
Qed.

End BlockFacts.

(** X9.  The short hash of a block is the first eight characters of the
    hash: it is a prefix of the hash, its length is the smaller of 8 and the
    length of the hash, and a hash of at most eight characters is printed
    whole. *)
Theorem shortSha_bounds `{Env} (c : Commit) (index : nat) :
  (∃ rest : string,
     sha c
     = EnhancedCommitExporter.evalExpr c index EnhancedCommitExporter.EShortSha
       +:+ rest)
  ∧ String.length
      (EnhancedCommitExporter.evalExpr c index EnhancedCommitExporter.EShortSha)
    = (8 `min` String.length (sha c))%nat
  ∧ ((String.length (sha c) ≤ 8)%nat →
     EnhancedCommitExporter.evalExpr c index EnhancedCommitExporter.EShortSha
     = sha c).
Proof.
  simpl. split_and!.
  - apply substring0_prefix.
  - apply substring0_length.
  - apply substring0_all.
Qed.

(** X10.  The title of a commit is the first line of its message and has no
    line feed, and the title followed by the remaining lines, joined by line
    feeds, is the message again.  A message of one line is its own title
    and has an empty body. *)
Theorem title_and_lines (c : Commit) :
  Observations.singleLine (EnhancedCommitExporter.title c)
  ∧ JS.join JS.LF
      (EnhancedCommitExporter.title c
         :: JS.slice1 (EnhancedCommitExporter.messageLines c))
    = GitCommit.message (commit c)
  ∧ (Observations.singleLine (GitCommit.message (commit c)) →
     EnhancedCommitExporter.title c = GitCommit.message (commit c)
     ∧ EnhancedCommitExporter.body c = "").
Proof.
  unfold EnhancedCommitExporter.title, EnhancedCommitExporter.body,
    EnhancedCommitExporter.messageLines.
  pose proof (join_split_lines (GitCommit.message (commit c))) as Hjoin.
  destruct (split_lines_head (GitCommit.message (commit c)))
    as (l & ls & Hsplit & Hl & Hone).
  rewrite Hsplit in *. simpl. split_and!; [done|done|].
  intros Hs. destruct (Hone Hs) as [-> ->]. done.
Qed.

Lemma title_and_lines_witness :
  Observations.singleLine
    (GitCommit.message (commit (Sample.commitBy "ann" "a1")))
  ∧ EnhancedCommitExporter.body (Sample.commitBy "ann" "a1") = "".
Proof.
  assert (Observations.singleLine
            (GitCommit.message (commit (Sample.commitBy "ann" "a1")))) as Hs
    by reflexivity.
  split; [exact Hs|].
  exact (proj2 (proj2 (proj2 (title_and_lines (Sample.commitBy "ann" "a1")))
                  Hs)).
Defined.

(** X11.  The body of a commit is trimmed: it neither starts nor ends with
    white space, and trimming it again changes nothing. *)
Theorem body_is_trimmed (c : Commit) :
  (∀ a, Observations.firstChar (EnhancedCommitExporter.body c) = Some a →
        Ascii.is_space a = false)
  ∧ (∀ a, Observations.lastChar (EnhancedCommitExporter.body c) = Some a →
          Ascii.is_space a = false)
  ∧ JS.trim (EnhancedCommitExporter.body c) = EnhancedCommitExporter.body c.
Proof.
  unfold EnhancedCommitExporter.body, JS.trim.
  set (s := JS.join JS.LF
              (JS.slice1 (EnhancedCommitExporter.messageLines c))).
  assert (∀ a, Observations.firstChar (JS.trimEnd (JS.trimStart s)) = Some a →
               Ascii.is_space a = false) as Hfirst.
  { intros a Ha. by apply trimEnd_first, trimStart_first in Ha. }
  split_and!; [exact Hfirst|apply trimEnd_last|].
  rewrite (trimStart_clean _ Hfirst). apply trimEnd_idemp.
Qed.

(** X12.  The three tables of the detail level agree on the level they fall
    back to: for every number, the template of the block, the name printed
    in the header and the tokens per commit are those of the same level,
    the number itself between 1 and 5 and 3 otherwise. *)
Theorem detail_level_tables_agree (level : Z) :
  1 ≤ Observations.effectiveLevel level ≤ 5
  ∧ EnhancedCommitExporter.template level
    = EnhancedCommitExporter.template (Observations.effectiveLevel level)
  ∧ EnhancedCommitExporter.getDetailLevelName level
    = EnhancedCommitExporter.getDetailLevelName
        (Observations.effectiveLevel level)
  ∧ CommitFilter.getTokensPerCommit level
    = CommitFilter.getTokensPerCommit (Observations.effectiveLevel level).
Proof.
  unfold Observations.effectiveLevel.
  destruct (decide (1 ≤ level ≤ 5)) as [Hin|Hout]; [by split_and!; try lia|].
  split; [lia|].
  assert (level < 1 ∨ 5 < level) as Hl by lia.
  split_and!.
  - by apply template_out_of_range.
  - destruct level as [|q|q]; [reflexivity| |reflexivity].
    destruct q as [[[?|?|]|[?|?|]|]|[[?|?|]|[?|?|]|]|]; try reflexivity; lia.
  - by rewrite getTokensPerCommit_out_of_range.
Qed.

(** ** Breakdowns *)

Section BreakdownFacts.
Import EnhancedCommitExporter Observations.

Lemma total_cons (e : string * Z) (es : list (string * Z)) :
  total (e :: es) = e.2 + total es.
Proof. reflexivity. Qed.

Lemma total_app (es es' : list (string * Z)) :
  total (es ++ es') = total es + total es'.
Proof.
  induction es as [|e es IH]; [done|].
  rewrite <- app_comm_cons, !total_cons, IH. lia.
Qed.

Lemma total_Permutation (es es' : list (string * Z)) :
  es ≡ₚ es' → total es = total es'.
Proof.
  induction 1 as [|e es es' _ IH|e e' es|es es' es'' _ IH _ IH'];
    rewrite ?total_cons; lia.
Qed.

(** Counting a key adds one to the total. *)
Lemma total_countKey (o : JS.object) (k : string) :
  total (countKey o k) = total o + 1.
Proof.
  unfold countKey. induction o as [|[k' v] o IH].
  - reflexivity.
  - rewrite get_cons, set_cons in *.
    destruct (decide (k = k')) as [->|Hne].
    + rewrite !total_cons. unfold JS.or_number. simpl.
      destruct (decide (v = 0)); lia.
    + rewrite !total_cons. simpl.
      destruct (JS.get o k) as [n|]; simpl in *; lia.
Qed.

Lemma total_countKey_foldl (names : list string) :
  total (foldl countKey [] names) = Z.of_nat (length names).
Proof.
  induction names as [|a names IH] using rev_ind; [done|].
  rewrite foldl_snoc, total_countKey, IH, length_app. simpl. lia.
Qed.

Lemma insert_index_Permutation (e : N * (string * Z))
    (l : list (N * (string * Z))) :
  JS.insert_index e l ≡ₚ e :: l.
Proof.
  induction l as [|e' l IH]; simpl; [done|].
  destruct (e.1 <=? e'.1)%N; [done|].
  rewrite IH. apply Permutation_swap.
Qed.

Lemma list_filter_complement {A} (f : A → bool) (l : list A) :
  List.filter f l ++ List.filter (λ x, negb (f x)) l ≡ₚ l.
Proof.
  induction l as [|x l IH]; simpl; [done|].
  destruct (f x); simpl.
  - by rewrite IH.
  - rewrite <- Permutation_middle. by rewrite IH.
Qed.

(** [Object.entries] lists every own property once. *)
Lemma entries_Permutation (o : JS.object) : JS.entries o ≡ₚ o.
Proof.
  unfold JS.entries, JS.index_entries.
  rewrite <- (list_filter_complement (λ kv, JS.is_array_index kv.1) o) at 3.
  apply Permutation_app; [|done].
  transitivity
    (snd <$> omap (λ kv : string * Z,
                     (λ n, (n, kv)) <$> JS.array_index kv.1) o).
  - apply fmap_Permutation.
    induction (omap (λ kv : string * Z,
                       (λ n, (n, kv)) <$> JS.array_index kv.1) o)
      as [|e l IH]; simpl; [done|].
    by rewrite insert_index_Permutation, IH.
  - induction o as [|kv o IH]; [done|]. simpl.
    unfold JS.is_array_index.
    destruct (JS.array_index kv.1); simpl; by rewrite IH.
Qed.

Lemma insert_sorted_Permutation {A} (cmp : A → A → Z) (x : A) (l : list A) :
  JS.insert_sorted cmp x l ≡ₚ x :: l.
Proof.
  induction l as [|y l IH]; simpl; [done|].
  destruct (cmp x y <=? 0); [done|].
  rewrite IH. apply Permutation_swap.
Qed.

(** The sort keeps the entries. *)
Lemma sort_Permutation {A} (cmp : A → A → Z) (l : list A) :
  JS.sort cmp l ≡ₚ l.
Proof.
  unfold JS.sort. induction l as [|x l IH]; simpl; [done|].
  by rewrite insert_sorted_Permutation, IH.
Qed.

(** The dictionary of a [reduce] with its keys and counts, whatever the
    keys. *)
Lemma countKey_foldl_entries (names : list string) (k : string) (n : Z) :
  (k, n) ∈ JS.entries (foldl countKey [] names)
  ↔ k ∈ names ∧ n = commitsBy names k.
Proof.
  rewrite entries_Permutation, countKey_foldl, list_elem_of_fmap. split.
  - intros (a & Heq & Ha). injection Heq as -> ->.
    split; [by apply elem_of_firstOccurrences|done].
  - intros [Hk ->]. exists k. by rewrite elem_of_firstOccurrences.
Qed.

Lemma countKey_foldl_NoDup (names : list string) :
  NoDup (JS.entries (foldl countKey [] names)).*1.
Proof.
  rewrite entries_Permutation, countKey_foldl, <- list_fmap_compose.
  simpl. rewrite list_fmap_id. apply NoDup_firstOccurrences.
Qed.

Lemma total_nonneg (es : list (string * Z)) :
  Forall (λ e, 0 ≤ e.2) es → 0 ≤ total es.
Proof.
  induction 1 as [|e es He _ IH]; [done|]. rewrite total_cons. lia.
Qed.

Lemma total_take (n : nat) (es : list (string * Z)) :
  Forall (λ e, 0 ≤ e.2) es → total (take n es) ≤ total es.
Proof.
  intros Hes. rewrite <- (take_drop n es) at 2. rewrite total_app.
  assert (0 ≤ total (drop n es)); [|lia].
  apply total_nonneg. by apply Forall_drop.
Qed.

End BreakdownFacts.

Lemma not_inherited (k : string) :
  bool_decide (k ∈ JS.inherited_names) = false → k ∉ JS.inherited_names.
Proof. apply bool_decide_eq_false. Qed.



Section RankingFacts.
Import EnhancedCommitExporter Observations.

Lemma authorCount_entries (p : Props) (a : string) (n : Z) :
  (a, n) ∈ JS.entries (authorCount p)
  ↔ a ∈ authorNames p ∧ n = commitsBy (authorNames p) a.
Proof.
  assert (authorCount p = foldl countKey [] (authorNames p)) as ->.
  { unfold authorCount, authorNames. by rewrite foldl_fmap. }
  apply countKey_foldl_entries.
Qed.

Lemma StronglySorted_True {A} (l : list A) :
  StronglySorted (λ _ _, True) l.
Proof.
  induction l as [|x l IH]; constructor; [done|]. by apply Forall_forall.
Qed.

(** The sorted entries of the author dictionary. *)
Lemma sorted_entries_spec (p : Props) :
  let ranking :=
    JS.sort (λ a b : string * Z, b.2 - a.2) (JS.entries (authorCount p)) in
  (∀ a n, (a, n) ∈ ranking
          ↔ a ∈ authorNames p ∧ n = commitsBy (authorNames p) a)
  ∧ NoDup ranking.*1
  ∧ StronglySorted (λ e1 e2 : string * Z, e2.2 ≤ e1.2) ranking
  ∧ total ranking = Z.of_nat (length (filteredCommits p))
  ∧ length ranking = length (JS.unique (authorNames p)).
Proof.
  intros ranking. subst ranking.
  assert (authorCount p = foldl countKey [] (authorNames p)) as Hcount.
  { unfold authorCount, authorNames. by rewrite foldl_fmap. }
  split_and!.
  - intros a n. rewrite elem_of_sort. apply authorCount_entries.
  - rewrite sort_Permutation, Hcount. apply countKey_foldl_NoDup.
  - eapply StronglySorted_weaken;
      [|apply (sort_ranked (λ _ _, True)), StronglySorted_True].
    intros e1 e2. simpl. lia.
  - rewrite (total_Permutation _ _ (sort_Permutation _ _)).
    rewrite (total_Permutation _ _ (entries_Permutation _)).
    rewrite Hcount, total_countKey_foldl. unfold authorNames.
    by rewrite length_fmap.
  - rewrite sort_Permutation, entries_Permutation, Hcount, countKey_foldl.
    by rewrite length_fmap.
Qed.

Lemma count_by_author (commits : list Commit) (a : string) :
  Z.of_nat
    (length
       (List.filter
          (λ c, bool_decide (Author.name (GitCommit.author (commit c)) = a))
          commits))
  = commitsBy ((λ c, Author.name (GitCommit.author (commit c))) <$> commits) a.
Proof.
  unfold commitsBy. f_equal.
  induction commits as [|c commits IH]; [done|].
  rewrite fmap_cons, filter_cons. simpl.
  destruct (decide (Author.name (GitCommit.author (commit c)) = a)) as [Ha|Ha].
  - rewrite bool_decide_eq_true_2 by done. simpl. by rewrite IH.
  - by rewrite bool_decide_eq_false_2 by done.
Qed.

End RankingFacts.

(** X14.  Whatever the author names look like (array indices included, the
    names of inherited members of objects excluded), the author summary
    ranks by count: it is the first five entries of a list that has every
    author once with the number of the author's commits, in descending
    order of count, and its length is the smaller of 5 and the number of
    distinct authors. *)
Theorem topAuthors_by_count (p : EnhancedCommitExporter.Props) :
  (∀ a, a ∈ Observations.authorNames p → a ∉ JS.inherited_names) →
  ∃ ranking : list (string * Z),
    (∀ a n, (a, n) ∈ ranking
            ↔ a ∈ Observations.authorNames p
              ∧ n = Observations.commitsBy (Observations.authorNames p) a)
    ∧ NoDup ranking.*1
    ∧ StronglySorted (λ e1 e2 : string * Z, e2.2 ≤ e1.2) ranking
    ∧ EnhancedCommitExporter.topAuthors p = take 5 ranking
    ∧ length (EnhancedCommitExporter.topAuthors p)
      = (5 `min` length (JS.unique (Observations.authorNames p)))%nat.
Proof.
  intros _.
  destruct (sorted_entries_spec p) as (Hmem & Hnd & Hsorted & _ & Hlen).
  eexists. split_and!; [exact Hmem|exact Hnd|exact Hsorted|reflexivity|].
  unfold EnhancedCommitExporter.topAuthors, JS.slice0.
  by rewrite length_take, Hlen.
Qed.

Lemma topAuthors_by_count_witness :
  (∀ a, a ∈ Observations.authorNames Sample.digitAuthorProps →
        a ∉ JS.inherited_names)
  ∧ length (EnhancedCommitExporter.topAuthors Sample.digitAuthorProps)
    = (5 `min` length (JS.unique
                         (Observations.authorNames Sample.digitAuthorProps)))%nat.
Proof.
  assert (∀ a, a ∈ Observations.authorNames Sample.digitAuthorProps →
               a ∉ JS.inherited_names) as Hown.
  { apply Forall_forall.
    set (names := Observations.authorNames Sample.digitAuthorProps).
    vm_compute in names. subst names.
    repeat (apply Forall_cons; split; [by apply not_inherited|]).
    constructor. }
  split; [exact Hown|].
  destruct (topAuthors_by_count Sample.digitAuthorProps Hown)
    as (ranking & _ & _ & _ & _ & Hlen).
  exact Hlen.
Defined.

(** X15.  The counts of the author summary never add up to more than the
    number of filtered commits, and with at most five distinct authors they
    add up to exactly that number: every commit is accounted for. *)
Theorem topAuthors_total (p : EnhancedCommitExporter.Props) :
  (∀ a, a ∈ Observations.authorNames p → a ∉ JS.inherited_names) →
  Observations.total (EnhancedCommitExporter.topAuthors p)
    ≤ Z.of_nat (length (EnhancedCommitExporter.filteredCommits p))
  ∧ ((length (JS.unique (Observations.authorNames p)) ≤ 5)%nat →
     Observations.total (EnhancedCommitExporter.topAuthors p)
     = Z.of_nat (length (EnhancedCommitExporter.filteredCommits p))).
Proof.
  intros _.
  destruct (sorted_entries_spec p) as (Hmem & _ & _ & Htotal & Hlen).
  unfold EnhancedCommitExporter.topAuthors, JS.slice0. split.
  - rewrite <- Htotal. apply total_take.
    apply Forall_forall. intros [a n] [_ ->]%Hmem. simpl.
    unfold Observations.commitsBy. lia.
  - intros Hfew. rewrite take_ge by lia. exact Htotal.
Qed.

Lemma topAuthors_total_witness :
  (∀ a, a ∈ Observations.authorNames Sample.tiedAuthorsProps →
        a ∉ JS.inherited_names)
  ∧ Observations.total (EnhancedCommitExporter.topAuthors Sample.tiedAuthorsProps)
    ≤ Z.of_nat
        (length (EnhancedCommitExporter.filteredCommits Sample.tiedAuthorsProps)).
Proof.
  assert (∀ a, a ∈ Observations.authorNames Sample.tiedAuthorsProps →
               a ∉ JS.inherited_names) as Hown.
  { apply Forall_forall.
    set (names := Observations.authorNames Sample.tiedAuthorsProps).
    vm_compute in names. subst names.
    repeat (apply Forall_cons; split; [by apply not_inherited|]).
    constructor. }
  split; [exact Hown|].
  exact (proj1 (topAuthors_total Sample.tiedAuthorsProps Hown)).
Defined.


(** X17.  When the author names are plain dictionary keys the two exporters
    agree before ranking: the entries of the author dictionary of the
    report are the authors and counts of the first exporter's breakdown, in
    the same order. *)
Theorem exporters_agree_on_authors (p : EnhancedCommitExporter.Props) :
  (∀ a, a ∈ Observations.authorNames p → JS.plain_key a = true) →
  JS.entries (EnhancedCommitExporter.authorCount p)
  = (λ e : string * nat, (e.1, Z.of_nat e.2))
      <$> CommitExporter.authorCommits
            (EnhancedCommitExporter.filteredCommits p).
Proof.
  intros Hplain.
  rewrite authorCount_names.
  rewrite entries_plain.
  - unfold CommitExporter.authorCommits, CommitExporter.uniqueAuthors.
    rewrite <- list_fmap_compose. apply list_fmap_ext. intros _ a _. simpl.
    by rewrite count_by_author.
  - apply Forall_fmap, Forall_forall. intros k Hk. simpl.
    by apply plain_key_not_index, Hplain, elem_of_firstOccurrences.
Qed.

Lemma exporters_agree_on_authors_witness :
  (∀ a, a ∈ Observations.authorNames Sample.tiedAuthorsProps →
        JS.plain_key a = true)
  ∧ JS.entries (EnhancedCommitExporter.authorCount Sample.tiedAuthorsProps)
    = (λ e : string * nat, (e.1, Z.of_nat e.2))
        <$> CommitExporter.authorCommits
              (EnhancedCommitExporter.filteredCommits Sample.tiedAuthorsProps).
Proof.
  assert (∀ a, a ∈ Observations.authorNames Sample.tiedAuthorsProps →
               JS.plain_key a = true) as Hplain.
  { apply Forall_forall.
    set (names := Observations.authorNames Sample.tiedAuthorsProps).
    vm_compute in names. subst names. repeat constructor. }
  split; [exact Hplain|].
  exact (exporters_agree_on_authors Sample.tiedAuthorsProps Hplain).
Defined.

(** ** Runs of the commit fetch *)

Section RunFacts.
Import Index Observations.
Context (api : Api) (username selectedRepo : string) (dateRange : DateRange).

Local Abbreviation request := (pageRequest username selectedRepo dateRange).
Local Abbreviation requests := (pageRequests username selectedRepo dateRange).
Local Abbreviation loop fuel :=
  (fetchLoop fuel api username selectedRepo dateRange).
Local Abbreviation answersFull :=
  (Observations.answersFull api username selectedRepo dateRange).

Lemma answersFull_nil page : answersFull page [].
Proof. by intros i p Hp. Qed.

Lemma answersFull_intro page p fullPages :
  api (request page) = Ok p → (perPage ≤ length p)%nat →
  answersFull (page + 1) fullPages → answersFull page (p :: fullPages).
Proof.
  intros Hp Hlen Hfull [|i] q Hq; simplify_eq/=.
  - by rewrite Z.add_0_r.
  - destruct (Hfull i q Hq) as [H1 H2]. split; [|done].
    by replace (page + Z.of_nat (S i)) with (page + 1 + Z.of_nat i) by lia.
Qed.

Lemma answersFull_length fullPages :
  ∀ page, answersFull page fullPages →
  (perPage * length fullPages ≤ length (concat fullPages))%nat.
Proof.
  induction fullPages as [|p fullPages IH]; intros page Hfull;
    [unfold perPage; simpl; lia|].
  apply answersFull_cons in Hfull as (_ & Hlen & Hfull).
  specialize (IH _ Hfull). unfold perPage in *.
  simpl concat. simpl length. rewrite length_app. lia.
Qed.

Lemma pageRequests_one page : requests page 1 = [request page].
Proof. unfold pageRequests. simpl. by rewrite Z.add_0_r. Qed.

Lemma length_pageRequests page n : length (requests page n) = n.
Proof. unfold pageRequests. by rewrite length_fmap, length_seq. Qed.

Lemma NoDup_pageRequests page n : NoDup (requests page n).
Proof.
  unfold pageRequests. apply NoDup_fmap_2; [|apply NoDup_seq].
  intros k1 k2 Heq. injection Heq. lia.
Qed.

Lemma pageRequests_lookup page n i :
  (i < n)%nat → requests page n !! i = Some (request (page + Z.of_nat i)).
Proof.
  intros Hi. unfold pageRequests.
  by rewrite list_lookup_fmap, lookup_seq_lt.
Qed.

Lemma elem_of_pageRequests page n r :
  r ∈ requests page n ↔ ∃ k, (k < n)%nat ∧ r = request (page + Z.of_nat k).
Proof.
  split.
  - intros (i & Hi)%list_elem_of_lookup_1.
    assert (i < n)%nat as Hlt.
    { apply lookup_lt_Some in Hi. by rewrite length_pageRequests in Hi. }
    rewrite pageRequests_lookup in Hi by done. exists i. by simplify_eq.
  - intros (k & Hk & ->). eapply list_elem_of_lookup_2.
    by apply pageRequests_lookup.
Qed.

(** The answers to the requests of a run are the full pages and the last
    page. *)
Lemma answered_requests fullPages :
  ∀ page lastPage,
  answersFull page fullPages →
  api (request (page + Z.of_nat (length fullPages))) = Ok lastPage →
  requests page (S (length fullPages)) ≫= answered api
  = concat fullPages ++ lastPage.
Proof.
  induction fullPages as [|p fullPages IH]; intros page lastPage Hfull Hlast.
  - simpl in Hlast. rewrite Z.add_0_r in Hlast. simpl length.
    rewrite pageRequests_one. simpl. unfold answered. rewrite Hlast.
    by rewrite app_nil_r.
  - apply answersFull_cons in Hfull as (Hp & _ & Hfull).
    rewrite pageRequests_S. simpl. unfold answered at 1. rewrite Hp.
    rewrite <- (assoc_L (++)). f_equal. apply IH; [done|].
    by replace (page + 1 + Z.of_nat (length fullPages))
      with (page + Z.of_nat (length (p :: fullPages))) by (simpl length; lia).
Qed.

(** Every run of the loop that returns has run through full pages and
    stopped at a short page or at a request that did not succeed. *)
Lemma fetchLoop_shape fuel :
  ∀ (allCommits : list Commit) (page : Z) (issued : list Request)
    (out : Outcome) (issued' : list Request),
  loop fuel allCommits page issued = Some (out, issued') →
  ∃ fullPages : list (list Commit),
    answersFull page fullPages
    ∧ (length fullPages < fuel)%nat
    ∧ issued' = issued ++ requests page (S (length fullPages))
    ∧ match out with
      | Thrown =>
          ∀ p, api (request (page + Z.of_nat (length fullPages))) ≠ Ok p
      | Completed allCommits' =>
          ∃ lastPage,
            api (request (page + Z.of_nat (length fullPages))) = Ok lastPage
            ∧ (length lastPage < perPage)%nat
            ∧ allCommits'
              = allCommits
                ++ (withRepo selectedRepo <$> concat fullPages ++ lastPage)
      end.
Proof.
  induction fuel as [|fuel IH]; intros allCommits page issued out issued' Hrun;
    [done|].
  simpl in Hrun.
  destruct (api (request page)) as [p| |] eqn:Hp.
  - destruct (decide (length p = 0%nat)) as [Hz|Hz].
    { simplify_eq. exists []. simpl. rewrite Z.add_0_r, pageRequests_one.
      split_and!; [apply answersFull_nil|lia|done|].
      exists p. split_and!; [done|unfold perPage; lia|].
      apply nil_length_inv in Hz. subst p. by rewrite app_nil_r. }
    destruct (decide (length p < perPage)%nat) as [Hs|Hs].
    { simplify_eq. exists []. simpl. rewrite Z.add_0_r, pageRequests_one.
      split_and!; [apply answersFull_nil|lia|done|].
      by exists p. }
    apply IH in Hrun as (fullPages & Hfull & Hfuel & -> & Hout).
    exists (p :: fullPages). split_and!.
    + apply answersFull_intro; [done|lia|done].
    + simpl. lia.
    + rewrite (pageRequests_S _ _ _ page (S (length fullPages))).
      by rewrite <- !(assoc_L (++)).
    + replace (page + Z.of_nat (length (p :: fullPages)))
        with (page + 1 + Z.of_nat (length fullPages)) by (simpl length; lia).
      destruct out as [allCommits'|]; [|done].
      destruct Hout as (lastPage & Hlast & Hshort & ->).
      exists lastPage. split_and!; [done..|].
      simpl concat. by rewrite !fmap_app, <- !(assoc_L (++)).
  - simplify_eq. exists []. simpl. rewrite Z.add_0_r, pageRequests_one.
    split_and!; [apply answersFull_nil|lia|done|].
    intros p. by rewrite Hp.
  - simplify_eq. exists []. simpl. rewrite Z.add_0_r, pageRequests_one.
    split_and!; [apply answersFull_nil|lia|done|].
    intros p. by rewrite Hp.
Qed.

(** The loop is still running after [fuel] requests exactly when the first
    [fuel] pages were all full. *)
Lemma fetchLoop_running fuel :
  ∀ (allCommits : list Commit) (page : Z) (issued : list Request),
  loop fuel allCommits page issued = None
  ↔ ∀ k : nat, (k < fuel)%nat →
      ∃ p, api (request (page + Z.of_nat k)) = Ok p ∧ (perPage ≤ length p)%nat.
Proof.
  induction fuel as [|fuel IH]; intros allCommits page issued.
  { split; [intros _ k Hk; lia|done]. }
  simpl.
  destruct (api (request page)) as [p| |] eqn:Hp.
  - destruct (decide (length p = 0%nat)) as [Hz|Hz].
    { split; [done|]. intros Hall. destruct (Hall 0%nat) as (q & Hq & Hlen);
        [lia|]. rewrite Z.add_0_r, Hp in Hq. simplify_eq.
      unfold perPage in Hlen. lia. }
    destruct (decide (length p < perPage)%nat) as [Hs|Hs].
    { split; [done|]. intros Hall. destruct (Hall 0%nat) as (q & Hq & Hlen);
        [lia|]. rewrite Z.add_0_r, Hp in Hq. simplify_eq. lia. }
    rewrite IH. split.
    + intros Hall [|k] Hk.
      * exists p. rewrite Z.add_0_r. split; [done|lia].
      * destruct (Hall k) as (q & Hq & Hlen); [lia|]. exists q.
        split; [|done].
        by replace (page + Z.of_nat (S k)) with (page + 1 + Z.of_nat k) by lia.
    + intros Hall k Hk. destruct (Hall (S k)) as (q & Hq & Hlen); [lia|].
      exists q. split; [|done].
      by replace (page + 1 + Z.of_nat k) with (page + Z.of_nat (S k)) by lia.
  - split; [done|]. intros Hall. destruct (Hall 0%nat) as (q & Hq & _); [lia|].
    rewrite Z.add_0_r, Hp in Hq. done.
  - split; [done|]. intros Hall. destruct (Hall 0%nat) as (q & Hq & _); [lia|].
    rewrite Z.add_0_r, Hp in Hq. done.
Qed.

(** The enhanced loop is the loop of the first version with the tag added
    to every commit. *)
Lemma fetchLoop_versions fuel :
  ∀ (allCommits : list Commit) (page : Z) (issued : list Request),
  loop fuel (withRepo selectedRepo <$> allCommits) page issued
  = tagged selectedRepo
      <$> IndexV1.fetchLoop fuel api username selectedRepo dateRange
            allCommits page issued.
Proof.
  induction fuel as [|fuel IH]; intros allCommits page issued; [done|].
  simpl. destruct (api (request page)) as [p| |]; [|done..].
  destruct (decide (length p = 0%nat)); [done|].
  destruct (decide (length p < perPage)%nat).
  - unfold tagged. simpl. by rewrite fmap_app.
  - rewrite <- fmap_app. apply IH.
Qed.

(** What [fetchCommits] leaves behind when it returns, for a repository and
    a range. *)
Lemma fetchCommits_shape (st : State) (fuel : nat) (st' : State)
    (issued : list Request) :
  selectedRepo ≠ "" →
  fetchCommits fuel api username selectedRepo (Some dateRange) st
    = Some (st', issued) →
  ∃ fullPages : list (list Commit),
    answersFull 1 fullPages
    ∧ (length fullPages < fuel)%nat
    ∧ issued = requests 1 (S (length fullPages))
    ∧ (((∀ p, api (request (1 + Z.of_nat (length fullPages))) ≠ Ok p)
        ∧ st' = mkState [] (filteredCommits st) false
                  (toasts st ++ [fetchFailed]))
       ∨ (∃ lastPage,
            api (request (1 + Z.of_nat (length fullPages))) = Ok lastPage
            ∧ (length lastPage < perPage)%nat
            ∧ st' = mkState
                      (withRepo selectedRepo <$> concat fullPages ++ lastPage)
                      (withRepo selectedRepo <$> concat fullPages ++ lastPage)
                      false
                      (toasts st
                       ++ [commitsLoaded
                             (length (withRepo selectedRepo
                                        <$> concat fullPages ++ lastPage))]))).
Proof.
  intros Hrepo Hrun. unfold fetchCommits in Hrun.
  rewrite decide_False in Hrun by done.
  destruct (loop fuel [] 1 []) as [[out issued']|] eqn:Hloop; [|done].
  apply fetchLoop_shape in Hloop as (fullPages & Hfull & Hfuel & -> & Hout).
  exists fullPages. simpl app in Hrun.
  destruct out as [allCommits|].
  - destruct Hout as (lastPage & Hlast & Hshort & ->). simpl app in Hrun.
    simplify_eq. split_and!; [done..|]. right. by exists lastPage.
  - simplify_eq. split_and!; [done..|]. by left.
Qed.

End RunFacts.

Section TaggedFacts.
Import Index.

(** Commits that all carry the tag of one repository pass the filter
    together or not at all. *)
Lemma filter_keeps_tagged (repos : list string) (name : string)
    (commits : list Commit) :
  name ≠ "" →
  Forall (λ c, repository c = Some (Repository.mk name)) commits →
  List.filter (CommitFilter.keeps repos) commits
  = if decide (repos = [] ∨ name ∈ repos) then commits else [].
Proof.
  intros Hname Htag.
  assert (∀ c, c ∈ commits →
            CommitFilter.keeps repos c
            = bool_decide (repos = [] ∨ name ∈ repos)) as Hkeeps.
  { intros c Hc. rewrite Forall_forall in Htag.
    destruct repos as [|r repos].
    - rewrite keeps_nil. symmetry. apply bool_decide_eq_true. by left.
    - rewrite keeps_cons.
      rewrite (repoName_tagged c (Repository.mk name)) by auto. simpl.
      apply bool_decide_ext. split; [by right|]. by intros [?|?]. }
  induction commits as [|c commits IH].
  { simpl. by destruct (decide _). }
  simpl. rewrite Hkeeps by left.
  rewrite IH.
  - destruct (decide (repos = [] ∨ name ∈ repos)).
    + by rewrite bool_decide_eq_true_2.
    + by rewrite bool_decide_eq_false_2.
  - by inversion Htag.
  - intros c' Hc'. apply Hkeeps. by right.
Qed.

(** For commits that all carry the tag of one repository, the repositories
    offered to the filter are the ones of that name. *)
Lemma filterRepositories_tagged (repositories : list RepositoryInfo.t)
    (name : string) (commits : list Commit) :
  commits ≠ [] →
  Forall (λ c, repository c = Some (Repository.mk name)) commits →
  filterRepositories repositories commits
  = List.filter (λ repo, bool_decide (RepositoryInfo.name repo = name))
      repositories.
Proof.
  intros Hne Htag. unfold filterRepositories. apply filter_ext_in.
  intros repo _.
  destruct commits as [|c commits]; [done|].
  apply Forall_cons in Htag as [Hc Htag]. simpl. rewrite Hc. simpl.
  destruct (decide (RepositoryInfo.name repo = name)) as [->|Hother].
  - by rewrite !bool_decide_eq_true_2.
  - rewrite !bool_decide_eq_false_2 by congruence. simpl.
    induction commits as [|c' commits IH]; [done|].
    apply Forall_cons in Htag as [Hc' Htag]. simpl. rewrite Hc'. simpl.
    rewrite bool_decide_eq_false_2 by congruence. by apply IH.
Qed.

Lemma withRepo_tagged (selectedRepo : string) (commits : list Commit) :
  Forall (λ c, repository c = Some (Repository.mk selectedRepo))
    (withRepo selectedRepo <$> commits).
Proof. apply Forall_fmap, Forall_forall. by intros c _. Qed.

(** Whatever way [fetchCommits] returns for a repository and a range, the
    stored commits carry the tag of the repository. *)
Lemma fetchCommits_tagged (api : Api) (username selectedRepo : string)
    (dateRange : DateRange) (st : State) (fuel : nat) (st' : State)
    (issued : list Request) :
  selectedRepo ≠ "" →
  fetchCommits fuel api username selectedRepo (Some dateRange) st
    = Some (st', issued) →
  Forall (λ c, repository c = Some (Repository.mk selectedRepo)) (commits st').
Proof.
  intros Hrepo Hrun.
  destruct (fetchCommits_shape _ _ _ _ _ _ _ _ Hrepo Hrun)
    as (fullPages & _ & _ & _ & [[_ ->]|(lastPage & _ & _ & ->)]); simpl.
  - constructor.
  - apply withRepo_tagged.
Qed.

End TaggedFacts.

(** X18.  [fetchCommits] issues no request exactly when the repository or
    the range is missing; then it leaves the commits, the filtered commits
    and the loading flag as they are and shows the ['Missing information']
    notification.  Otherwise it ends with the loading flag unset and one
    more notification. *)
Theorem fetchCommits_guard (api : Index.Api) (username selectedRepo : string)
    (dateRange : option DateRange) (st : Index.State) (fuel : nat)
    (st' : Index.State) (issued : list Index.Request) :
  Index.fetchCommits fuel api username selectedRepo dateRange st
    = Some (st', issued) →
  (issued = [] ↔ selectedRepo = "" ∨ dateRange = None)
  ∧ (issued = [] →
     Index.commits st' = Index.commits st
     ∧ Index.filteredCommits st' = Index.filteredCommits st
     ∧ Index.loading st' = Index.loading st
     ∧ Index.toasts st' = Index.toasts st ++ [Index.missingInformation])
  ∧ (issued ≠ [] →
     Index.loading st' = false
     ∧ length (Index.toasts st') = S (length (Index.toasts st))).
Proof.
  intros Hrun.
  destruct dateRange as [range|]; [destruct (decide (selectedRepo = "")) as [He|Hrepo]|].
  - unfold Index.fetchCommits in Hrun. rewrite decide_True in Hrun by done.
    simplify_eq. simpl. split_and!; [split; [by left|done]|done|done].
  - destruct (fetchCommits_shape _ _ _ _ _ _ _ _ Hrepo Hrun)
      as (fullPages & _ & _ & -> & Hst).
    rewrite pageRequests_S.
    split_and!; [split; [done|by intros [?|?]]|done|].
    intros _.
    destruct Hst as [[_ ->]|(lastPage & _ & _ & ->)]; simpl;
      rewrite length_app; simpl; split; (done || lia).
  - simpl in Hrun. simplify_eq. simpl.
    split_and!; [split; [by right|done]|done|done].
Qed.

Lemma fetchCommits_guard_witness :
  Index.fetchCommits 0 Sample.threePages "octocat" "" (Some Sample.january)
    Sample.idle
  = Some (Index.mkState [] [] false [Index.missingInformation], [])
  ∧ (@nil Index.Request = [] ↔ "" = "" ∨ Some Sample.january = None).
Proof.
  assert (Index.fetchCommits 0 Sample.threePages "octocat" ""
            (Some Sample.january) Sample.idle
          = Some (Index.mkState [] [] false [Index.missingInformation], []))
    as Hrun by reflexivity.
  split; [exact Hrun|].
  exact (proj1 (fetchCommits_guard Sample.threePages "octocat" ""
                  (Some Sample.january) Sample.idle 0 _ _ Hrun)).
Defined.

(** X19.  A run of [fetchCommits] for a repository and a range asks for the
    pages 1, 2, ..., n in this order and for no page twice, with at least
    one request; each request names the user, the repository and the two
    ends of the range and asks for 100 commits per page; and every request
    but the last one was answered with at least 100 commits. *)
Theorem fetchCommits_requests (api : Index.Api)
    (username selectedRepo : string) (dateRange : DateRange)
    (st : Index.State) (fuel : nat) (st' : Index.State)
    (issued : list Index.Request) :
  selectedRepo ≠ "" →
  Index.fetchCommits fuel api username selectedRepo (Some dateRange) st
    = Some (st', issued) →
  (1 ≤ length issued ≤ fuel)%nat
  ∧ issued
    = Observations.pageRequests username selectedRepo dateRange 1
        (length issued)
  ∧ NoDup issued
  ∧ (∀ (i : nat) (r : Index.Request), issued !! i = Some r →
       Index.req_page r = 1 + Z.of_nat i
       ∧ Index.req_per_page r = 100
       ∧ Index.req_username r = username
       ∧ Index.req_repo r = selectedRepo
       ∧ Index.req_since r = from dateRange
       ∧ Index.req_until r = to dateRange)
  ∧ (∀ (i : nat) (r : Index.Request), issued !! i = Some r →
       (S i < length issued)%nat →
       ∃ p, api r = Index.Ok p ∧ (100 ≤ length p)%nat).
Proof.
  intros Hrepo Hrun.
  destruct (fetchCommits_shape _ _ _ _ _ _ _ _ Hrepo Hrun)
    as (fullPages & Hfull & Hfuel & -> & _).
  rewrite length_pageRequests. split_and!.
  - lia.
  - lia.
  - done.
  - apply NoDup_pageRequests.
  - intros i r Hi.
    assert (i < S (length fullPages))%nat as Hlt.
    { apply lookup_lt_Some in Hi. by rewrite length_pageRequests in Hi. }
    rewrite pageRequests_lookup in Hi by done. by simplify_eq.
  - intros i r Hi Hlt.
    rewrite pageRequests_lookup in Hi by lia. simplify_eq.
    destruct (lookup_lt_is_Some_2 fullPages i) as [p Hp]; [lia|].
    destruct (Hfull i p Hp) as [Hans Hlen]. by exists p.
Qed.

Lemma fetchCommits_requests_witness :
  "core" ≠ ""
  ∧ Index.fetchCommits 2 Sample.failsOnSecond "octocat" "core"
      (Some Sample.january) Sample.idle
    = Some (Index.mkState [] [] false [Index.fetchFailed],
            Observations.pageRequests "octocat" "core" Sample.january 1 2)
  ∧ NoDup (Observations.pageRequests "octocat" "core" Sample.january 1 2).
Proof.
  assert ("core" ≠ "") as Hrepo by discriminate.
  assert (Index.fetchCommits 2 Sample.failsOnSecond "octocat" "core"
            (Some Sample.january) Sample.idle
          = Some (Index.mkState [] [] false [Index.fetchFailed],
                  Observations.pageRequests "octocat" "core" Sample.january 1 2))
    as Hrun by reflexivity.
  split; [exact Hrepo|]. split; [exact Hrun|].
  exact (proj1 (proj2 (proj2
           (fetchCommits_requests Sample.failsOnSecond "octocat" "core"
              Sample.january Sample.idle 2 _ _ Hrepo Hrun)))).
Defined.

(** X20.  When every request of a run was answered, the stored commits are
    the answers to the requests, in the order of the requests, each commit
    with the tag of the repository; the filtered commits are the same list;
    the notification states their number; the last answer has fewer than
    100 commits, and there are at least 100 commits for every request but
    the last. *)
Theorem fetchCommits_stores_answers (api : Index.Api)
    (username selectedRepo : string) (dateRange : DateRange)
    (st : Index.State) (fuel : nat) (st' : Index.State)
    (issued : list Index.Request) :
  selectedRepo ≠ "" →
  Index.fetchCommits fuel api username selectedRepo (Some dateRange) st
    = Some (st', issued) →
  (∀ r, r ∈ issued → ∃ p, api r = Index.Ok p) →
  Index.commits st'
    = (Index.withRepo selectedRepo <$> (issued ≫= Observations.answered api))
  ∧ Index.filteredCommits st' = Index.commits st'
  ∧ Index.toasts st'
    = Index.toasts st ++ [Index.commitsLoaded (length (Index.commits st'))]
  ∧ Forall (λ c, repository c = Some (Repository.mk selectedRepo))
      (Index.commits st')
  ∧ (100 * (length issued - 1) ≤ length (Index.commits st'))%nat
  ∧ (∃ r, last issued = Some r
          ∧ (length (Observations.answered api r) < 100)%nat).
Proof.
  intros Hrepo Hrun Hall.
  destruct (fetchCommits_shape _ _ _ _ _ _ _ _ Hrepo Hrun)
    as (fullPages & Hfull & Hfuel & -> & [[Hfail _]|(lastPage & Hlast & Hshort & ->)]).
  { destruct (Hall (Index.pageRequest username selectedRepo dateRange
                      (1 + Z.of_nat (length fullPages)))) as [p Hp].
    - apply elem_of_pageRequests. exists (length fullPages). split; [lia|done].
    - by destruct (Hfail p). }
  rewrite (answered_requests api _ _ _ fullPages 1 lastPage Hfull Hlast).
  cbn [Index.commits Index.filteredCommits Index.toasts].
  split_and!; [done|done|done|apply withRepo_tagged| |].
  - rewrite length_pageRequests, length_fmap, length_app.
    pose proof (answersFull_length _ _ _ _ _ _ Hfull) as Hlen.
    unfold Index.perPage in Hlen. lia.
  - exists (Index.pageRequest username selectedRepo dateRange
              (1 + Z.of_nat (length fullPages))).
    split.
    + rewrite last_lookup, length_pageRequests. simpl.
      by rewrite pageRequests_lookup by lia.
    + unfold Observations.answered. rewrite Hlast. exact Hshort.
Qed.

Lemma fetchCommits_stores_answers_witness :
  "core" ≠ ""
  ∧ (∃ st', Index.fetchCommits 3 Sample.threePages "octocat" "core"
              (Some Sample.january) Sample.idle
            = Some (st', Observations.pageRequests "octocat" "core"
                           Sample.january 1 3)
            ∧ Index.filteredCommits st' = Index.commits st').
Proof.
  assert ("core" ≠ "") as Hrepo by discriminate.
  split; [exact Hrepo|].
  eexists. split; [vm_compute; reflexivity|].
  eapply (fetchCommits_stores_answers Sample.threePages "octocat" "core"
            Sample.january Sample.idle 3 _ _ Hrepo).
  - vm_compute. reflexivity.
  - intros r Hr. unfold Sample.threePages.
    repeat case_decide; eauto.
Defined.

(** X21.  The loop has no limit on the number of pages: for a repository
    and a range, [fetchCommits] is still running after any number of
    requests exactly when all the pages asked for so far had at least 100
    commits, so it never returns when the API answers every page with a
    full one. *)
Theorem fetchCommits_no_page_limit (api : Index.Api)
    (username selectedRepo : string) (dateRange : DateRange)
    (st : Index.State) :
  selectedRepo ≠ "" →
  (∀ fuel : nat,
     Index.fetchCommits fuel api username selectedRepo (Some dateRange) st
       = None
     ↔ ∀ k : nat, (k < fuel)%nat →
         ∃ p, api (Index.pageRequest username selectedRepo dateRange
                     (1 + Z.of_nat k)) = Index.Ok p
              ∧ (100 ≤ length p)%nat)
  ∧ ((∀ k : nat,
        ∃ p, api (Index.pageRequest username selectedRepo dateRange
                    (1 + Z.of_nat k)) = Index.Ok p
             ∧ (100 ≤ length p)%nat) →
     ∀ fuel : nat,
       Index.fetchCommits fuel api username selectedRepo (Some dateRange) st
       = None).
Proof.
  intros Hrepo.
  assert (∀ fuel : nat,
     Index.fetchCommits fuel api username selectedRepo (Some dateRange) st
       = None
     ↔ ∀ k : nat, (k < fuel)%nat →
         ∃ p, api (Index.pageRequest username selectedRepo dateRange
                     (1 + Z.of_nat k)) = Index.Ok p
              ∧ (100 ≤ length p)%nat) as Hrunning.
  { intros fuel.
    rewrite <- (fetchLoop_running api username selectedRepo dateRange fuel [] 1 []).
    unfold Index.fetchCommits. rewrite decide_False by done.
    destruct (Index.fetchLoop fuel api username selectedRepo dateRange [] 1 [])
      as [[[allCommits|] issued]|]; by split. }
  split; [exact Hrunning|].
  intros Hall fuel. apply Hrunning. intros k _. apply Hall.
Qed.

Lemma fetchCommits_no_page_limit_witness :
  "core" ≠ ""
  ∧ ∀ fuel : nat,
      Index.fetchCommits fuel Sample.alwaysFull "octocat" "core"
        (Some Sample.january) Sample.idle = None.
Proof.
  assert ("core" ≠ "") as Hrepo by discriminate.
  split; [exact Hrepo|].
  apply (proj2 (fetchCommits_no_page_limit Sample.alwaysFull "octocat" "core"
                  Sample.january Sample.idle Hrepo)).
  intros k. eexists. split; [reflexivity|]. rewrite length_replicate. lia.
Defined.

(** X22.  The commits that [fetchCommits] stores for a repository pass the
    filter together: a selection that is empty or contains the repository
    keeps all of them, with the estimate for all of them, and any other
    selection keeps none, with an estimate of 0. *)
Theorem fetched_commits_pass_filter (api : Index.Api)
    (username selectedRepo : string) (dateRange : DateRange)
    (st : Index.State) (fuel : nat) (st' : Index.State)
    (issued : list Index.Request) (repos : list string) (detail : Z) :
  selectedRepo ≠ "" →
  Index.fetchCommits fuel api username selectedRepo (Some dateRange) st
    = Some (st', issued) →
  (repos = [] ∨ selectedRepo ∈ repos →
   CommitFilter.applyFilters (Index.commits st') repos detail
   = (Index.commits st',
      Z.of_nat (length (Index.commits st'))
      * CommitFilter.getTokensPerCommit detail))
  ∧ (repos ≠ [] → selectedRepo ∉ repos →
     CommitFilter.applyFilters (Index.commits st') repos detail = ([], 0)).
Proof.
  intros Hrepo Hrun.
  pose proof (fetchCommits_tagged _ _ _ _ _ _ _ _ Hrepo Hrun) as Htag.
  unfold CommitFilter.applyFilters. cbv zeta.
  rewrite (filter_keeps_tagged repos selectedRepo _ Hrepo Htag).
  split.
  - intros Hsel. by rewrite decide_True.
  - intros Hne Hnot. rewrite decide_False by (by intros [?|?]). done.
Qed.

Lemma fetched_commits_pass_filter_witness :
  "core" ≠ ""
  ∧ ∃ st',
      Index.fetchCommits 3 Sample.threePages "octocat" "core"
        (Some Sample.january) Sample.idle
      = Some (st', Observations.pageRequests "octocat" "core"
                     Sample.january 1 3)
      ∧ CommitFilter.applyFilters (Index.commits st') ["docs"] 3 = ([], 0).
Proof.
  assert ("core" ≠ "") as Hrepo by discriminate.
  split; [exact Hrepo|].
  eexists. split; [vm_compute; reflexivity|].
  eapply (proj2 (fetched_commits_pass_filter Sample.threePages "octocat" "core"
                   Sample.january Sample.idle 3 _ _ ["docs"] 3 Hrepo
                   ltac:(vm_compute; reflexivity))).
  - discriminate.
  - by intros [?|?%elem_of_nil]%elem_of_cons.
Defined.

(** X23.  After [fetchCommits] has stored commits for a repository, the
    repositories that the page offers to the filter are the entries of the
    listing with the name of that repository, and no other. *)
Theorem filterRepositories_after_fetch (api : Index.Api)
    (username selectedRepo : string) (dateRange : DateRange)
    (st : Index.State) (fuel : nat) (st' : Index.State)
    (issued : list Index.Request) (repositories : list RepositoryInfo.t) :
  selectedRepo ≠ "" →
  Index.fetchCommits fuel api username selectedRepo (Some dateRange) st
    = Some (st', issued) →
  Index.commits st' ≠ [] →
  Index.filterRepositories repositories (Index.commits st')
  = List.filter (λ repo, bool_decide (RepositoryInfo.name repo = selectedRepo))
      repositories.
Proof.
  intros Hrepo Hrun Hne.
  apply filterRepositories_tagged; [done|].
  by eapply fetchCommits_tagged.
Qed.

Lemma filterRepositories_after_fetch_witness :
  "core" ≠ ""
  ∧ ∃ st',
      Index.fetchCommits 3 Sample.threePages "octocat" "core"
        (Some Sample.january) Sample.idle
      = Some (st', Observations.pageRequests "octocat" "core"
                     Sample.january 1 3)
      ∧ Index.commits st' ≠ []
      ∧ RepositoryInfo.name
          <$> Index.filterRepositories Sample.listing (Index.commits st')
        = ["core"].
Proof.
  assert ("core" ≠ "") as Hrepo by discriminate.
  split; [exact Hrepo|].
  eexists. split; [vm_compute; reflexivity|].
  split; [discriminate|].
  rewrite (filterRepositories_after_fetch Sample.threePages "octocat" "core"
             Sample.january Sample.idle 3 _ _ Sample.listing Hrepo
             ltac:(vm_compute; reflexivity) ltac:(discriminate)).
  reflexivity.
Defined.

(** X24.  The enhanced page fetches as the first version of the page did:
    for a repository and a range, both issue the same requests, both return
    or neither does, and the commits that the enhanced page stores are the
    commits of the first version, each with the tag of the repository; the
    loading flag and, from equal notifications, the notifications are the
    same. *)
Theorem fetchCommits_versions_agree (api : Index.Api)
    (username selectedRepo : string) (dateRange : DateRange) (fuel : nat)
    (st1 : IndexV1.State) (st : Index.State) :
  selectedRepo ≠ "" →
  match IndexV1.fetchCommits fuel api username selectedRepo (Some dateRange)
          st1 with
  | Some (st1', issued) =>
      ∃ st' : Index.State,
        Index.fetchCommits fuel api username selectedRepo (Some dateRange) st
        = Some (st', issued)
        ∧ Index.commits st'
          = (Index.withRepo selectedRepo <$> IndexV1.commits st1')
        ∧ Index.loading st' = IndexV1.loading st1'
        ∧ (Index.toasts st = IndexV1.toasts st1 →
           Index.toasts st' = IndexV1.toasts st1')
  | None =>
      Index.fetchCommits fuel api username selectedRepo (Some dateRange) st
      = None
  end.
Proof.
  intros Hrepo. unfold IndexV1.fetchCommits, Index.fetchCommits.
  rewrite !decide_False by done.
  pose proof (fetchLoop_versions api username selectedRepo dateRange fuel
                [] 1 []) as Hloop.
  change (Index.withRepo selectedRepo <$> []) with (@nil Commit) in Hloop.
  rewrite Hloop.
  destruct (IndexV1.fetchLoop fuel api username selectedRepo dateRange [] 1 [])
    as [[[allCommits|] issued]|]; simpl; [| |done].
  - eexists. split; [reflexivity|]. simpl. split_and!; [done|done|].
    intros ->. by rewrite length_fmap.
  - eexists. split; [reflexivity|]. simpl. split_and!; [done|done|].
    by intros ->.
Qed.

Lemma fetchCommits_versions_agree_witness :
  "core" ≠ ""
  ∧ match IndexV1.fetchCommits 2 Sample.failsOnSecond "octocat" "core"
            (Some Sample.january) Sample.idleV1 with
    | Some (st1', issued) =>
        ∃ st' : Index.State,
          Index.fetchCommits 2 Sample.failsOnSecond "octocat" "core"
            (Some Sample.january) Sample.idle
          = Some (st', issued)
          ∧ Index.commits st'
            = (Index.withRepo "core" <$> IndexV1.commits st1')
          ∧ Index.loading st' = IndexV1.loading st1'
          ∧ (Index.toasts Sample.idle = IndexV1.toasts Sample.idleV1 →
             Index.toasts st' = IndexV1.toasts st1')
    | None =>
        Index.fetchCommits 2 Sample.failsOnSecond "octocat" "core"
          (Some Sample.january) Sample.idle
        = None
    end.
Proof.
  assert ("core" ≠ "") as Hrepo by discriminate.
  split; [exact Hrepo|].
  exact (fetchCommits_versions_agree Sample.failsOnSecond "octocat" "core"
           Sample.january 2 Sample.idleV1 Sample.idle Hrepo).
Defined.

(** ** Ranges that are not of positive length *)

(** X25.  For a range whose end lies before its start the span of the
    report is not positive.  It is 0 exactly when the range is shorter than
    a day, and then the average is [-Infinity] ([NaN] without commits);
    from one day on the span is negative and the average is the quotient
    of the number of commits by it. *)
Theorem timeSpan_reversed_range (p : EnhancedCommitExporter.Props) :
  to (EnhancedCommitExporter.dateRange p)
    < from (EnhancedCommitExporter.dateRange p) →
  (EnhancedCommitExporter.timeSpan p).1 ≤ 0
  ∧ ((EnhancedCommitExporter.timeSpan p).1 = 0
     ↔ from (EnhancedCommitExporter.dateRange p)
         - to (EnhancedCommitExporter.dateRange p)
       < EnhancedCommitExporter.msPerDay)
  ∧ (from (EnhancedCommitExporter.dateRange p)
       - to (EnhancedCommitExporter.dateRange p)
     < EnhancedCommitExporter.msPerDay →
     EnhancedCommitExporter.averageCommitsPerDay p
     = if decide (EnhancedCommitExporter.filteredCommits p = [])
       then JS.NaN else JS.NegInfinity)
  ∧ (EnhancedCommitExporter.msPerDay
     ≤ from (EnhancedCommitExporter.dateRange p)
       - to (EnhancedCommitExporter.dateRange p) →
     EnhancedCommitExporter.averageCommitsPerDay p
     = JS.Ratio
         (Z.of_nat (length (EnhancedCommitExporter.filteredCommits p)))
         (EnhancedCommitExporter.timeSpan p).1).
Proof.
  intros Hrev. pose proof (timeSpan_ceiling p) as Hceil. cbv zeta in Hceil.
  unfold EnhancedCommitExporter.averageCommitsPerDay, JS.divide.
  assert ((EnhancedCommitExporter.timeSpan p).2
          = bool_decide (from (EnhancedCommitExporter.dateRange p)
                           - to (EnhancedCommitExporter.dateRange p)
                         < EnhancedCommitExporter.msPerDay)) as Hflag.
  { unfold EnhancedCommitExporter.timeSpan, JS.ceil_div. simpl.
    rewrite (proj2 (Z.ltb_lt _ 0)) by lia. rewrite andb_true_r.
    case_bool_decide; [apply Z.ltb_lt|apply Z.ltb_ge]; lia. }
  unfold EnhancedCommitExporter.msPerDay in *.
  change (1000 * 60 * 60 * 24) with 86400000 in *.
  split_and!.
  - lia.
  - lia.
  - intros Hshort. rewrite decide_True by lia.
    rewrite Hflag, bool_decide_eq_true_2 by done.
    destruct (EnhancedCommitExporter.filteredCommits p) as [|c cs]; [done|].
    rewrite decide_False by (simpl; lia). by rewrite decide_False.
  - intros Hlong. by rewrite decide_False by lia.
Qed.

Lemma timeSpan_reversed_range_witness :
  to (EnhancedCommitExporter.dateRange Sample.reversedProps)
    < from (EnhancedCommitExporter.dateRange Sample.reversedProps)
  ∧ (EnhancedCommitExporter.timeSpan Sample.reversedProps).1 ≤ 0.
Proof.
  assert (to (EnhancedCommitExporter.dateRange Sample.reversedProps)
            < from (EnhancedCommitExporter.dateRange Sample.reversedProps))
    as Hrev by reflexivity.
  split; [exact Hrev|].
  exact (proj1 (timeSpan_reversed_range Sample.reversedProps Hrev)).
Defined.

(** X26.  When only a start date has been picked, the date picker hands
    over the range from that date to itself, and a report for that range
    has a span of 0 days and no finite average, in both exporters:
    [Infinity] with commits and [NaN] without. *)
Theorem single_date_selection (picked : Z)
    (p : EnhancedCommitExporter.Props) :
  DateRangePicker.handleDateSelect (Some picked) None
    = Some (EnhancedCommitExporter.dateRange p) →
  from (EnhancedCommitExporter.dateRange p) = picked
  ∧ to (EnhancedCommitExporter.dateRange p) = picked
  ∧ EnhancedCommitExporter.timeSpan p = (0, false)
  ∧ EnhancedCommitExporter.averageCommitsPerDay p
    = (if decide (EnhancedCommitExporter.filteredCommits p = [])
       then JS.NaN else JS.Infinity)
  ∧ CommitExporter.averageCommitsPerDay
      (EnhancedCommitExporter.filteredCommits p)
      (EnhancedCommitExporter.dateRange p)
    = (if decide (EnhancedCommitExporter.filteredCommits p = [])
       then JS.NaN else JS.Infinity).
Proof.
  intros Hsel. simpl in Hsel. injection Hsel as Hrange.
  assert (from (EnhancedCommitExporter.dateRange p)
          = to (EnhancedCommitExporter.dateRange p)) as Heq
    by by rewrite <- Hrange.
  split_and!.
  - by rewrite <- Hrange.
  - by rewrite <- Hrange.
  - by apply timeSpan_same_instant.
  - by apply averageCommitsPerDay_same_instant.
  - rewrite <- (averageCommitsPerDay_same_instant p Heq). reflexivity.
Qed.

Lemma single_date_selection_witness :
  DateRangePicker.handleDateSelect (Some 1704067200000) None
    = Some (EnhancedCommitExporter.dateRange Sample.singleDayProps)
  ∧ EnhancedCommitExporter.timeSpan Sample.singleDayProps = (0, false).
Proof.
  assert (DateRangePicker.handleDateSelect (Some 1704067200000) None
          = Some (EnhancedCommitExporter.dateRange Sample.singleDayProps))
    as Hsel by reflexivity.
  split; [exact Hsel|].
  exact (proj1 (proj2 (proj2
           (single_date_selection 1704067200000 Sample.singleDayProps Hsel)))).
Defined.

(** ** The two buttons of the repository list *)

(** X27.  [Select All] and [Clear All] change the selection only: the
    detail level and the stored token count stay as they are.  After
    [Clear All] the component shows all commits as filtered, so when the
    stored count was the estimate for the earlier selection, it is the
    estimate for what is shown now exactly when that selection already
    kept every commit. *)
Theorem select_buttons_leave_estimate (commits : list Commit)
    (repositories : list RepositoryInfo.t) (st : CommitFilter.State) :
  CommitFilter.tokenCount st
    = Z.of_nat (CommitFilter.filteredCommitsShown commits st)
      * CommitFilter.tokensPerCommitShown st →
  CommitFilter.tokenCount (CommitFilter.selectAll repositories st)
    = CommitFilter.tokenCount st
  ∧ CommitFilter.detailLevel (CommitFilter.selectAll repositories st)
    = CommitFilter.detailLevel st
  ∧ CommitFilter.selectedRepos (CommitFilter.selectAll repositories st)
    = RepositoryInfo.name <$> repositories
  ∧ CommitFilter.tokenCount (CommitFilter.clearAll st)
    = CommitFilter.tokenCount st
  ∧ CommitFilter.detailLevel (CommitFilter.clearAll st)
    = CommitFilter.detailLevel st
  ∧ CommitFilter.filteredCommitsShown commits (CommitFilter.clearAll st)
    = length commits
  ∧ (CommitFilter.tokenCount (CommitFilter.clearAll st)
     = Z.of_nat (CommitFilter.filteredCommitsShown commits
                   (CommitFilter.clearAll st))
       * CommitFilter.tokensPerCommitShown (CommitFilter.clearAll st)
     ↔ CommitFilter.filteredCommitsShown commits st = length commits).
Proof.
  assert (CommitFilter.filteredCommitsShown commits (CommitFilter.clearAll st)
          = length commits) as Hall.
  { unfold CommitFilter.filteredCommitsShown, CommitFilter.clearAll. simpl.
    f_equal. induction commits as [|c commits IH]; simpl; [done|].
    by rewrite IH. }
  intros Hstep.
  split_and!; try done.
  rewrite Hall. unfold CommitFilter.clearAll at 1.
  unfold CommitFilter.tokensPerCommitShown in *. simpl.
  rewrite Hstep.
  pose proof (getTokensPerCommit_range (CommitFilter.detailLevel st)) as Hpos.
  split.
  - intros Heq. apply Z.mul_cancel_r in Heq; lia.
  - by intros ->.
Qed.

Lemma select_buttons_leave_estimate_witness :
  CommitFilter.tokenCount
    (CommitFilter.handleRepoToggle Sample.threeCommits CommitFilter.initial
       "docs").1
    = Z.of_nat
        (CommitFilter.filteredCommitsShown Sample.threeCommits
           (CommitFilter.handleRepoToggle Sample.threeCommits
              CommitFilter.initial "docs").1)
      * CommitFilter.tokensPerCommitShown
          (CommitFilter.handleRepoToggle Sample.threeCommits
             CommitFilter.initial "docs").1
  ∧ CommitFilter.filteredCommitsShown Sample.threeCommits
      (CommitFilter.clearAll
         (CommitFilter.handleRepoToggle Sample.threeCommits
            CommitFilter.initial "docs").1)
    = length Sample.threeCommits.
Proof.
  assert (CommitFilter.tokenCount
            (CommitFilter.handleRepoToggle Sample.threeCommits
               CommitFilter.initial "docs").1
          = Z.of_nat
              (CommitFilter.filteredCommitsShown Sample.threeCommits
                 (CommitFilter.handleRepoToggle Sample.threeCommits
                    CommitFilter.initial "docs").1)
            * CommitFilter.tokensPerCommitShown
                (CommitFilter.handleRepoToggle Sample.threeCommits
                   CommitFilter.initial "docs").1)
    as Hstep by (vm_compute; reflexivity).
  split; [exact Hstep|].
  exact (proj1 (proj2 (proj2 (proj2 (proj2 (proj2
           (select_buttons_leave_estimate Sample.threeCommits Sample.listing
              (CommitFilter.handleRepoToggle Sample.threeCommits
                 CommitFilter.initial "docs").1 Hstep))))))).
Defined.
